(** * The agent loop of gophercon-2025-go-agent (agent.go)

    A shallow embedding of [agent.go]: the turn-taking loop [Run], the
    tool dispatcher [ExecuteTool] with its goroutine fan-out/fan-in, and
    the three-channel network transport ([readFromNetwork],
    [writeToNetwork], [handleRequest]); further on, [Start] and the two
    formatting helpers of the file listing in [coder_agent.go].

    Go code that talks to the outside (the model service, the tools, the
    console, the HTTP connections) is embedded as transformers of a world
    state.  A call may return, park its goroutine on a channel, or panic;
    [Outcome] keeps the three apart.  The tool goroutines of one response
    run their [ExecuteTool] one after the other, in the order a schedule
    lets them hand over their results; any order is a schedule.
    Diagnostics printed with [fmt] and the [time.Sleep] in [ExecuteTool]
    are left out. *)

From Stdlib Require Import Ascii.
From stdpp Require Import base numbers list strings gmap pretty.

Open Scope string_scope.
Open Scope list_scope.

(** ** Go values *)

(** A non-nil [error], identified with the text [err.Error()] returns. *)
Definition error := string.

(** [json.RawMessage]: the raw bytes of a JSON value. *)
Definition RawMessage := string.

(** What a Go call can do to the goroutine that makes it. *)
Inductive Outcome (S A : Type) : Type :=
| Ret (a : A) (s : S)           (* the call returned [a] *)
| Block (s : S)                 (* parked on a channel operation *)
| Crash (why : string) (s : S). (* run-time panic *)
Arguments Ret {S A} a s.
Arguments Block {S A} s.
Arguments Crash {S A} why s.

(** ** Buffered channels, as one goroutine sees them *)
Module chan.

Record t (A : Type) : Type := Chan { cap : nat; buf : list A }.
Arguments Chan {A} cap buf.
Arguments cap {A} _.
Arguments buf {A} _.

(** [make(chan A, n)] *)
Definition make {A : Type} (n : nat) : t A := Chan n [].

(** [c <- v]: [None] when the buffer is full and the sender has to wait. *)
Definition send {A : Type} (v : A) (c : t A) : option (t A) :=
  if Nat.ltb (length (buf c)) (cap c) then Some (Chan (cap c) (buf c ++ [v])) else None.

(** [<-c]: [None] when the buffer is empty and the receiver has to wait. *)
Definition recv {A : Type} (c : t A) : option (A * t A) :=
  match buf c with
  | [] => None
  | v :: rest => Some (v, Chan (cap c) rest)
  end.

End chan.

(** ** The parts of anthropic-sdk-go the agent touches *)
Module anthropic.

(** A content block of a model response.  The SDK's union is a flat
    struct: every variant's fields side by side, [Type] telling which
    variant it is. *)
Record ContentBlockUnion : Type := {
  Type_ : string;
  Text : string;
  ID : string;
  Name : string;
  Input : RawMessage
}.

(** The variants [AsAny] can return; the loop's type switch has a case for
    the first two only. *)
Inductive anyContentBlock : Type :=
| TextBlock (Text : string)
| ToolUseBlock (ID Name : string) (Input : RawMessage)
| OtherBlock (Type_ : string).

Definition AsAny (c : ContentBlockUnion) : anyContentBlock :=
  if String.eqb (Type_ c) "text" then TextBlock (Text c)
  else if String.eqb (Type_ c) "tool_use" then ToolUseBlock (ID c) (Name c) (Input c)
  else OtherBlock (Type_ c).

Record Message : Type := {
  Role : string;
  Content : list ContentBlockUnion
}.

(** A content block of a transcript turn: the SDK's param union, one
    pointer field per variant. *)
Inductive ContentBlockParamUnion : Type :=
| OfText (Text : string)
| OfToolUse (ID Name : string) (Input : RawMessage)
| OfToolResult (ToolUseID Content : string) (IsError : bool)
| OfOther (Type_ : string).

Record MessageParam : Type := {
  ParamRole : string;
  ParamContent : list ContentBlockParamUnion
}.

Definition NewTextBlock (text : string) : ContentBlockParamUnion := OfText text.

Definition NewToolResultBlock (toolUseID content : string) (isError : bool)
  : ContentBlockParamUnion :=
  OfToolResult toolUseID content isError.

Definition NewUserMessage (blocks : list ContentBlockParamUnion) : MessageParam :=
  {| ParamRole := "user"; ParamContent := blocks |}.

Definition BlockToParam (c : ContentBlockUnion) : ContentBlockParamUnion :=
  match AsAny c with
  | TextBlock text => OfText text
  | ToolUseBlock id name input => OfToolUse id name input
  | OtherBlock ty => OfOther ty
  end.

(** [Message.ToParam]: the response as a transcript turn. *)
Definition ToParam (m : Message) : MessageParam :=
  {| ParamRole := Role m; ParamContent := map BlockToParam (Content m) |}.

Record ToolParam : Type := {
  ToolName : string;
  ToolDescription : string;
  ToolInputSchema : string
}.

Inductive ToolUnionParam : Type :=
| OfTool (tool : ToolParam).

Record MessageNewParams : Type := {
  MaxTokens : Z;
  Model : string;
  Messages : list MessageParam;
  Tools : list ToolUnionParam;
  System : list string
}.

Definition ModelClaudeSonnet4_20250514 : string := "claude-sonnet-4-20250514".

End anthropic.

(** ** net/http, as far as the transport uses it *)
Module http.

Definition StatusOK : Z := 200.
Definition StatusMethodNotAllowed : Z := 405.

(** An inbound request: its method, and what [io.ReadAll(req.Body)] gives. *)
Record Request : Type := {
  Method : string;
  Body : string * option error
}.

(** The state of one response: the headers set, the status line if it has
    been written, the body bytes written so far, and the fault (if any)
    that makes a [Write] on this connection fail. *)
Record Response : Type := {
  Header : list (string * string);
  Status : option Z;
  Written : string;
  Fault : option error
}.

Definition fresh (fault : option error) : Response :=
  {| Header := []; Status := None; Written := ""; Fault := fault |}.

(** [w.Header().Set(key, value)] *)
Definition Header_Set (key value : string) (w : Response) : Response :=
  {| Header := (key, value) :: filter (fun kv => negb (String.eqb kv.1 key)) (Header w);
     Status := Status w; Written := Written w; Fault := Fault w |}.

(** [w.WriteHeader(code)]: the first status written stays. *)
Definition WriteHeader (code : Z) (w : Response) : Response :=
  {| Header := Header w;
     Status := match Status w with Some c => Some c | None => Some code end;
     Written := Written w; Fault := Fault w |}.

(** [w.Write(data)]: writes the status line first if none was written; the
    data reach the body unless the connection is at fault. *)
Definition Write (data : string) (w : Response) : option error * Response :=
  let w := WriteHeader StatusOK w in
  match Fault w with
  | Some e => (Some e, w)
  | None =>
      (None, {| Header := Header w; Status := Status w;
                Written := Written w +:+ data; Fault := Fault w |})
  end.

(** A [http.ResponseWriter] value: a reference to a response. *)
Definition ResponseWriter := nat.

End http.

(** ** Goroutine code as state transformers *)

Definition Go (S A : Type) : Type := S -> Outcome S A.

Definition ret {S A : Type} (a : A) : Go S A := fun s => Ret a s.

Definition bind {S A B : Type} (m : Go S A) (k : A -> Go S B) : Go S B :=
  fun s =>
    match m s with
    | Ret a s' => k a s'
    | Block s' => Block s'
    | Crash why s' => Crash why s'
    end.

Definition panic {S A : Type} (why : string) : Go S A := fun s => Crash why s.

Definition park {S A : Type} : Go S A := fun s => Block s.

Declare Scope go_scope.
Delimit Scope go_scope with go.
Notation "'let*' x ':=' m 'in' k" := (bind m (fun x => k))
  (at level 10, x pattern, m at level 100, k at level 200,
   format "'[v' 'let*'  x  ':='  m  'in' '/' k ']'") : go_scope.
Notation "m ;; k" := (bind m (fun _ => k))
  (at level 100, k at level 200, right associativity) : go_scope.
Open Scope go_scope.

(** What the loop does that an observer can see, in the order it does it. *)
Inductive Event : Type :=
| CallReadInput
| CallMessagesNew (params : anthropic.MessageNewParams)
| Append (turn : anthropic.MessageParam)
| CallExecuteTool (toolID toolName : string) (toolInput : RawMessage)
| CallFunction (toolName : string) (toolInput : RawMessage)
| CallWriteOutput (message : string).

Section Agents.

(** Whatever lies outside the process: the model service, the file system,
    the console. *)
Context {Ext : Type}.

(** The state the goroutines of one agent process share.  The three
    channels are the ones [NewAgent] makes; [conns] holds the responses of
    the connections the HTTP server has accepted. *)
Record World : Type := {
  requestChan : chan.t http.Request;
  responseChan : chan.t http.ResponseWriter;
  doneChan : chan.t bool;
  conns : gmap nat http.Response;
  ext : Ext
}.

Definition set_requestChan (c : chan.t http.Request) (w : World) : World :=
  {| requestChan := c; responseChan := responseChan w; doneChan := doneChan w;
     conns := conns w; ext := ext w |}.

Definition set_responseChan (c : chan.t http.ResponseWriter) (w : World) : World :=
  {| requestChan := requestChan w; responseChan := c; doneChan := doneChan w;
     conns := conns w; ext := ext w |}.

Definition set_doneChan (c : chan.t bool) (w : World) : World :=
  {| requestChan := requestChan w; responseChan := responseChan w; doneChan := c;
     conns := conns w; ext := ext w |}.

Definition set_conns (m : gmap nat http.Response) (w : World) : World :=
  {| requestChan := requestChan w; responseChan := responseChan w;
     doneChan := doneChan w; conns := m; ext := ext w |}.

(** Channel operations on a field of the world. *)
Definition chan_recv {A : Type} (get : World -> chan.t A)
    (set : chan.t A -> World -> World) : Go World A :=
  fun w =>
    match chan.recv (get w) with
    | Some (v, c) => Ret v (set c w)
    | None => Block w
    end.

Definition chan_send {A : Type} (get : World -> chan.t A)
    (set : chan.t A -> World -> World) (v : A) : Go World unit :=
  fun w =>
    match chan.send v (get w) with
    | Some c => Ret tt (set c w)
    | None => Block w
    end.

(** A method call on the response behind a [http.ResponseWriter]. *)
Definition on_response {A : Type} (w : http.ResponseWriter)
    (method : http.Response -> A * http.Response) : Go World A :=
  fun s =>
    match conns s !! w with
    | Some r => let '(a, r') := method r in Ret a (set_conns (<[w := r']> (conns s)) s)
    | None => Crash "invalid memory address or nil pointer dereference" s
    end.

(** The tool type of the repository; its declaration is not in agent.go,
    the fields are those the tool tables of coder_agent.go fill in. *)
Record ToolDefinition : Type := {
  Name : string;
  Description : string;
  InputSchema : string;
  Function : RawMessage -> Go World (string * option error)
}.

(** [struct Agent], without the channels (they are in [World]).
    [client] stands for [a.client.Messages.New]. *)
Record Agent : Type := {
  name : string;
  port : Z;
  client : anthropic.MessageNewParams -> Go World (anthropic.Message + error);
  readInput : Go World (string * option error);
  writeOutput : string -> Go World (option error);
  tools : list ToolDefinition
}.

Definition NewAgent
    (client_ : anthropic.MessageNewParams -> Go World (anthropic.Message + error))
    (tools_ : list ToolDefinition)
    (readInput_ : Go World (string * option error))
    (writeOutput_ : string -> Go World (option error))
    (name_ : string) (port_ : Z) : Agent :=
  {| name := name_; client := client_; tools := tools_; readInput := readInput_;
     writeOutput := writeOutput_; port := port_ |}.

(** The channels of a new agent: [make(chan _, 1)], three times. *)
Definition NewAgent_world (e : Ext) : World :=
  {| requestChan := chan.make 1; responseChan := chan.make 1;
     doneChan := chan.make 1; conns := ∅; ext := e |}.

(** *** The network transport *)

Definition readFromNetwork : Go World (string * option error) :=
  let* req := chan_recv requestChan set_requestChan in
  match http.Body req with
  | (_, Some err) => ret ("", Some ("failed to read request body: " +:+ err))
  | (body, None) => ret (body, None)
  end.

Definition writeToNetwork (message : string) : Go World (option error) :=
  let* w := chan_recv responseChan set_responseChan in
  on_response w (fun r => (tt, http.Header_Set "Content-Type" "text/plain" r));;
  on_response w (fun r => (tt, http.WriteHeader http.StatusOK r));;
  let* err := on_response w (http.Write message) in
  chan_send doneChan set_doneChan true;;
  ret err.

(** [http.Error(w, msg, code)] *)
Definition http_Error (w : http.ResponseWriter) (msg : string) (code : Z) : Go World unit :=
  on_response w (fun r => (tt, http.Header_Set "Content-Type" "text/plain; charset=utf-8" r));;
  on_response w (fun r => (tt, http.WriteHeader code r));;
  let* _ := on_response w (http.Write (msg +:+ String (Ascii.ascii_of_nat 10) "")) in
  ret tt.

Definition handleRequest (w : http.ResponseWriter) (r : http.Request) : Go World unit :=
  if negb (String.eqb (http.Method r) "POST") then
    http_Error w "Method not allowed" http.StatusMethodNotAllowed
  else
    chan_send requestChan set_requestChan r;;
    chan_send responseChan set_responseChan w;;
    let* _ := chan_recv doneChan set_doneChan in
    ret tt.

Definition NewCoderAgent
    (client_ : anthropic.MessageNewParams -> Go World (anthropic.Message + error))
    (CoderTools : list ToolDefinition)
    (readFromCli : Go World (string * option error))
    (writeToCli : string -> Go World (option error)) : Agent :=
  let agent := NewAgent client_ CoderTools readFromCli writeToCli "coder" 8080 in
  {| name := name agent; port := port agent; client := client agent;
     readInput := readFromNetwork; writeOutput := writeToNetwork;
     tools := tools agent |}.

(** A nil function value: calling it panics. *)
Definition nil_func {A : Type} : Go World A :=
  panic "invalid memory address or nil pointer dereference".

Definition NewDocAgent
    (client_ : anthropic.MessageNewParams -> Go World (anthropic.Message + error))
    (DocTools : list ToolDefinition) : Agent :=
  let agent := NewAgent client_ DocTools nil_func (fun _ => nil_func) "doc" 8081 in
  {| name := name agent; port := port agent; client := client agent;
     readInput := readFromNetwork; writeOutput := writeToNetwork;
     tools := tools agent |}.

(** *** The loop's own state *)

(** The world, the order in which the Go scheduler will let parked tool
    goroutines through ([sched], consumed front to back), and the record of
    what the loop has done so far. *)
Record Sys : Type := {
  world : World;
  sched : list nat;
  trace : list Event
}.

(** A call to code outside the loop. *)
Definition extern {A : Type} (f : Go World A) : Go Sys A :=
  fun s =>
    let back w := {| world := w; sched := sched s; trace := trace s |} in
    match f (world s) with
    | Ret a w => Ret a (back w)
    | Block w => Block (back w)
    | Crash why w => Crash why (back w)
    end.

Definition emit (e : Event) : Go Sys unit :=
  fun s => Ret tt {| world := world s; sched := sched s; trace := trace s ++ [e] |}.

(** Which of [n] goroutines ready to send gets to hand over its value. *)
Definition pick (n : nat) : Go Sys nat :=
  fun s =>
    match sched s with
    | [] => Ret 0 s
    | k :: rest => Ret (k mod n) {| world := world s; sched := rest; trace := trace s |}
    end.

(** *** Infer *)

Definition system_prompt : string :=
  "<use_parallel_tool_calls> For maximum efficiency, whenever you perform multiple independent operations, invoke all relevant tools simultaneously rather than sequentially. Prioritize calling tools in parallel whenever possible. For example, when reading 3 files, run 3 tool calls in parallel to read all 3 files into context at the same time. When running multiple read-only commands like `ls` or `list_dir`, always run all of the commands in parallel. Err on the side of maximizing parallel tool calls rather than running too many tools sequentially. </use_parallel_tool_calls>".

Definition Infer_params (messages : list anthropic.MessageParam)
    (tools_ : list anthropic.ToolUnionParam) : anthropic.MessageNewParams :=
  {| anthropic.MaxTokens := 1024;
     anthropic.Model := anthropic.ModelClaudeSonnet4_20250514;
     anthropic.Messages := messages;
     anthropic.Tools := tools_;
     anthropic.System := [system_prompt] |}.

Definition Infer (a : Agent) (messages : list anthropic.MessageParam)
    (tools_ : list anthropic.ToolUnionParam) : Go Sys (anthropic.Message + error) :=
  let params := Infer_params messages tools_ in
  emit (CallMessagesNew params);;
  let* r := extern (client a params) in
  match r with
  | inr err => ret (inr err)
  | inl response => ret (inl response)
  end.

(** *** ExecuteTool *)

Definition ExecuteTool (a : Agent) (toolID toolName : string) (toolInput : RawMessage)
  : Go Sys anthropic.ContentBlockParamUnion :=
  emit (CallExecuteTool toolID toolName toolInput);;
  match find (fun tool => String.eqb (Name tool) toolName) (tools a) with
  | None => ret (anthropic.NewToolResultBlock toolID "Tool not found" true)
  | Some toolDef =>
      emit (CallFunction (Name toolDef) toolInput);;
      let* (result, err) := extern (Function toolDef toolInput) in
      match err with
      | Some e => ret (anthropic.NewToolResultBlock toolID e true)
      | None => ret (anthropic.NewToolResultBlock toolID result false)
      end
  end.

(** *** Run *)

(** What the closure of one [go func()] holds: the arguments of its
    [ExecuteTool] call, taken from the tool-use block. *)
Record Call : Type := {
  toolID : string;
  toolName : string;
  toolInput : RawMessage
}.

(** Lines 154-167: the pass over [response.Content] that counts the
    tool-use blocks and starts a goroutine for each. *)
Fixpoint Run_fan_out (content : list anthropic.ContentBlockUnion)
    (toolCount : nat) (running : list Call) : nat * list Call :=
  match content with
  | [] => (toolCount, running)
  | c :: rest =>
      match anthropic.AsAny c with
      | anthropic.ToolUseBlock id name_ input =>
          Run_fan_out rest (S toolCount)
            (running ++ [{| toolID := id; toolName := name_; toolInput := input |}])
      | _ => Run_fan_out rest toolCount running
      end
  end.

(** Lines 169-172: [toolCount] receives from [ch].  A receive lets one of
    the goroutines still running finish its [ExecuteTool] and hand over
    the result; with none left it would wait for ever. *)
Fixpoint Run_fan_in (a : Agent) (toolCount : nat) (running : list Call)
    (toolResults : list anthropic.ContentBlockParamUnion)
  : Go Sys (list anthropic.ContentBlockParamUnion) :=
  match toolCount with
  | O => ret toolResults
  | S toolCount' =>
      match running with
      | [] => park
      | _ =>
          let* k := pick (length running) in
          match running !! k with
          | None => park
          | Some g =>
              let* toolResult := ExecuteTool a (toolID g) (toolName g) (toolInput g) in
              Run_fan_in a toolCount' (delete k running) (toolResults ++ [toolResult])
          end
      end
  end.

(** The local variables that live across iterations of the [for]. *)
Record Loop : Type := {
  takeInput : bool;
  messages : list anthropic.MessageParam
}.

(** [messages = append(messages, turn)] *)
Definition append_turn (messages_ : list anthropic.MessageParam)
    (turn : anthropic.MessageParam) : Go Sys (list anthropic.MessageParam) :=
  emit (Append turn);;
  ret (messages_ ++ [turn]).

(** Lines 116-126. *)
Definition anthropicTools (a : Agent) : list anthropic.ToolUnionParam :=
  map (fun tool =>
         anthropic.OfTool
           {| anthropic.ToolName := Name tool;
              anthropic.ToolDescription := Description tool;
              anthropic.ToolInputSchema := InputSchema tool |})
      (tools a).

(** Lines 129-138: [inr] is the [return] of the function. *)
Definition Run_input (a : Agent) (st : Loop)
  : Go Sys (list anthropic.MessageParam + string * error) :=
  if takeInput st then
    emit CallReadInput;;
    let* (input, err) := extern (readInput a) in
    match err with
    | Some e => ret (inr ("", e))
    | None =>
        let* messages_ :=
          append_turn (messages st)
            (anthropic.NewUserMessage [anthropic.NewTextBlock input]) in
        ret (inl messages_)
    end
  else ret (inl (messages st)).

(** Lines 145-180: what the loop does with a response. *)
Definition Run_respond (a : Agent) (messages_ : list anthropic.MessageParam)
    (response : anthropic.Message) : Go Sys Loop :=
  let* messages_ := append_turn messages_ (anthropic.ToParam response) in
  let '(toolCount, running) := Run_fan_out (anthropic.Content response) 0 [] in
  let* toolResults := Run_fan_in a toolCount running [] in
  if Nat.eqb (length toolResults) 0 then
    match anthropic.Content response with
    | [] => panic "index out of range [0] with length 0"
    | c :: _ =>
        emit (CallWriteOutput (anthropic.Text c));;
        let* _ := extern (writeOutput a (anthropic.Text c)) in
        ret {| takeInput := true; messages := messages_ |}
    end
  else
    let* messages_ := append_turn messages_ (anthropic.NewUserMessage toolResults) in
    ret {| takeInput := false; messages := messages_ |}.

(** One iteration of the [for]: the loop variables for the next one, or
    the values [Run] returns. *)
Definition Run_body (a : Agent) (anthropicTools_ : list anthropic.ToolUnionParam)
    (st : Loop) : Go Sys (Loop + string * error) :=
  let* r := Run_input a st in
  match r with
  | inr out => ret (inr out)
  | inl messages_ =>
      let* r := Infer a messages_ anthropicTools_ in
      match r with
      | inr err => ret (inr ("", err))
      | inl response =>
          let* st' := Run_respond a messages_ response in
          ret (inl st')
      end
  end.

(** The first [n] iterations. *)
Fixpoint Run_loop (n : nat) (a : Agent)
    (anthropicTools_ : list anthropic.ToolUnionParam) (st : Loop)
  : Go Sys (Loop + string * error) :=
  match n with
  | O => ret (inl st)
  | S n' =>
      let* r := Run_body a anthropicTools_ st in
      match r with
      | inl st' => Run_loop n' a anthropicTools_ st'
      | inr out => ret (inr out)
      end
  end.

(** [Run], cut after [n] iterations: [inl] is the loop still going with
    those variables, [inr] is what [Run] returned. *)
Definition Run (n : nat) (a : Agent) : Go Sys (Loop + string * error) :=
  Run_loop n a (anthropicTools a) {| takeInput := true; messages := [] |}.

End Agents.

Arguments World : clear implicits.
Arguments Sys : clear implicits.
Arguments ToolDefinition : clear implicits.
Arguments Agent : clear implicits.

(** ** Vocabulary of the statements *)

(** The state a call leaves behind, however it ends. *)
Definition final {S A : Type} (o : Outcome S A) : S :=
  match o with
  | Ret _ s => s
  | Block s => s
  | Crash _ s => s
  end.

(** The tool-invocation requests of a model turn, in the order of the
    turn. *)
Definition tool_requests (response : anthropic.Message) : list Call :=
  omap (fun c =>
          match anthropic.AsAny c with
          | anthropic.ToolUseBlock id name_ input =>
              Some {| toolID := id; toolName := name_; toolInput := input |}
          | _ => None
          end)
       (anthropic.Content response).

(** A tool-invocation result answers the request [g]. *)
Definition answers (r : anthropic.ContentBlockParamUnion) (g : Call) : Prop :=
  exists content isError, r = anthropic.OfToolResult (toolID g) content isError.

(** The call identifier a transcript block answers, if it is a tool result. *)
Definition result_id (r : anthropic.ContentBlockParamUnion) : option string :=
  match r with
  | anthropic.OfToolResult id _ _ => Some id
  | _ => None
  end.

(** Events of the dispatcher. *)
Definition dispatch_event (e : Event) : Prop :=
  match e with
  | CallExecuteTool _ _ _ | CallFunction _ _ => True
  | _ => False
  end.

(** Events of [Run_respond]: everything but reading input and calling the
    model. *)
Definition respond_event (e : Event) : Prop :=
  match e with
  | CallReadInput | CallMessagesNew _ => False
  | _ => True
  end.

(** The turns a stretch of the record appended to the transcript. *)
Definition appended (evs : list Event) : list anthropic.MessageParam :=
  omap (fun e => match e with Append turn => Some turn | _ => None end) evs.

(** Every registered tool function returns, whatever the input and the
    world. *)
Definition responsive {Ext : Type} (a : Agent Ext) : Prop :=
  Forall (fun tool => forall input w, exists r w', Function tool input w = Ret r w')
         (tools a).

(** [r] is what some run of [ExecuteTool] on the request [g] returned. *)
Definition executed {Ext : Type} (a : Agent Ext)
    (r : anthropic.ContentBlockParamUnion) (g : Call) : Prop :=
  exists s s', ExecuteTool a (toolID g) (toolName g) (toolInput g) s = Ret r s'.

(** The two ways an answer to a response can leave the loop going. *)
Definition emitted (messages_ : list anthropic.MessageParam)
    (response : anthropic.Message) (post : list Event) (st' : Loop) : Prop :=
  exists c rest,
    anthropic.Content response = c :: rest
    /\ post = [CallWriteOutput (anthropic.Text c)]
    /\ st' = {| takeInput := true;
                messages := messages_ ++ [anthropic.ToParam response] |}.

Definition fed_back (messages_ : list anthropic.MessageParam)
    (response : anthropic.Message)
    (toolResults : list anthropic.ContentBlockParamUnion)
    (post : list Event) (st' : Loop) : Prop :=
  toolResults <> []
  /\ post = [Append (anthropic.NewUserMessage toolResults)]
  /\ st' = {| takeInput := false;
              messages := messages_ ++ [anthropic.ToParam response;
                                        anthropic.NewUserMessage toolResults] |}.

(** How an iteration comes by the transcript it shows the model. *)
Definition arrival (st : Loop) (pre : list Event)
    (messages1 : list anthropic.MessageParam) : Prop :=
  (takeInput st = false /\ pre = [] /\ messages1 = messages st)
  \/ (takeInput st = true /\
      exists input,
        let turn := anthropic.NewUserMessage [anthropic.NewTextBlock input] in
        pre = [CallReadInput; Append turn] /\ messages1 = messages st ++ [turn]).

(** How many entries of a stretch of the record satisfy [p]. *)
Fixpoint count (p : Event -> bool) (evs : list Event) : nat :=
  match evs with
  | [] => 0
  | ev :: rest => (if p ev then 1 else 0) + count p rest
  end.

Definition is_read (ev : Event) : bool :=
  match ev with CallReadInput => true | _ => false end.

Definition is_write (ev : Event) : bool :=
  match ev with CallWriteOutput _ => true | _ => false end.

(** An input cycle is open at the loop head when [takeInput] is cleared:
    input was read and no output has been written for it yet. *)
Definition open_cycle (st : Loop) : nat := if takeInput st then 0 else 1.

(** However [m] ends, it has only added entries satisfying [P] to the
    record. *)
Definition logs {Ext A : Type} (P : Event -> Prop) (m : Go (Sys Ext) A) : Prop :=
  forall s, exists evs, trace (final (m s)) = trace s ++ evs /\ Forall P evs.

(** One [ExecuteTool] of the fan-in: the state its goroutine ran from, its
    request, what it handed over, the state it left. *)
Record Step {Ext : Type} : Type := {
  before : Sys Ext;
  request : Call;
  outcome : anthropic.ContentBlockParamUnion;
  after : Sys Ext
}.

Arguments Step : clear implicits.

(** The fan-in as it ran from [σ] to [σ']: one [ExecuteTool] after the
    other, each from the world and the record the one before left
    (choosing the next goroutine uses up the schedule only). *)
Fixpoint chained {Ext : Type} (a : Agent Ext) (σ : Sys Ext) (steps : list (Step Ext))
    (σ' : Sys Ext) : Prop :=
  match steps with
  | [] => σ' = σ
  | step :: rest =>
      world (before step) = world σ
      /\ trace (before step) = trace σ
      /\ ExecuteTool a (toolID (request step)) (toolName (request step))
           (toolInput (request step)) (before step) = Ret (outcome step) (after step)
      /\ chained a (after step) rest σ'
  end.

(** ** A scripted environment

    Enough of an outside world to run the loop on concrete inputs: the
    console is a list of lines still to be typed and a list of lines
    printed, the model service is a list of replies still to be given,
    the file system is a list of named files.  The three tools stand in
    for the tables of coder_agent.go; their raw input is the path itself. *)
Module Scenario.

Record Env : Type := {
  stdin : list (string * option error);
  stdout : list string;
  service : list (anthropic.Message + error);
  files : list (string * string)
}.

Definition with_ext (f : Env -> Env) (w : World Env) : World Env :=
  {| requestChan := requestChan w; responseChan := responseChan w;
     doneChan := doneChan w; conns := conns w; ext := f (ext w) |}.

Definition readFromCli : Go (World Env) (string * option error) :=
  fun w =>
    match stdin (ext w) with
    | [] => Block w
    | line :: rest =>
        Ret line
          (with_ext (fun e => {| stdin := rest; stdout := stdout e;
                                 service := service e; files := files e |}) w)
    end.

Definition writeToCli (message : string) : Go (World Env) (option error) :=
  fun w =>
    Ret None
      (with_ext (fun e => {| stdin := stdin e; stdout := stdout e ++ [message];
                             service := service e; files := files e |}) w).

Definition Messages_New (params : anthropic.MessageNewParams)
  : Go (World Env) (anthropic.Message + error) :=
  fun w =>
    match service (ext w) with
    | [] => Block w
    | reply :: rest =>
        Ret reply
          (with_ext (fun e => {| stdin := stdin e; stdout := stdout e;
                                 service := rest; files := files e |}) w)
    end.

Definition lookup_file (path : string) (fs : list (string * string)) : string * option error :=
  match find (fun f => String.eqb f.1 path) fs with
  | Some f => (f.2, None)
  | None => ("", Some ("open " +:+ path +:+ ": no such file or directory"))
  end.

Definition ReadFile (input : RawMessage) : Go (World Env) (string * option error) :=
  fun w =>
    Ret (if String.eqb input "" then ("", Some "unexpected end of JSON input")
         else lookup_file input (files (ext w))) w.

Definition WriteFile (input : RawMessage) : Go (World Env) (string * option error) :=
  fun w =>
    Ret ("Successfully wrote to " +:+ input, None)
      (with_ext (fun e => {| stdin := stdin e; stdout := stdout e;
                             service := service e;
                             files := (input, "") :: files e |}) w).

Definition ListFiles (input : RawMessage) : Go (World Env) (string * option error) :=
  fun w => Ret (String.concat " " (map fst (files (ext w))), None) w.

Definition CoderTools : list (ToolDefinition Env) :=
  [ {| Name := "read_file"; Description := "Read the contents of a file.";
       InputSchema := "path"; Function := ReadFile |};
    {| Name := "write_file"; Description := "Write content to a file.";
       InputSchema := "path"; Function := WriteFile |};
    {| Name := "list_files"; Description := "List all files and directories.";
       InputSchema := "path"; Function := ListFiles |} ].

(** The agent on the console, and the agent behind the network transport. *)
Definition cli : Agent Env :=
  NewAgent Messages_New CoderTools readFromCli writeToCli "coder" 8080.

Definition coder : Agent Env :=
  NewCoderAgent Messages_New CoderTools readFromCli writeToCli.

Definition text (s : string) : anthropic.ContentBlockUnion :=
  {| anthropic.Type_ := "text"; anthropic.Text := s; anthropic.ID := "";
     anthropic.Name := ""; anthropic.Input := "" |}.

Definition tool_use (id name_ input : string) : anthropic.ContentBlockUnion :=
  {| anthropic.Type_ := "tool_use"; anthropic.Text := ""; anthropic.ID := id;
     anthropic.Name := name_; anthropic.Input := input |}.

Definition thinking : anthropic.ContentBlockUnion :=
  {| anthropic.Type_ := "thinking"; anthropic.Text := ""; anthropic.ID := "";
     anthropic.Name := ""; anthropic.Input := "" |}.

Definition assistant (content : list anthropic.ContentBlockUnion) : anthropic.Message :=
  {| anthropic.Role := "assistant"; anthropic.Content := content |}.

Definition env (lines : list (string * option error))
    (replies : list (anthropic.Message + error)) : Env :=
  {| stdin := lines; stdout := []; service := replies;
     files := [("go.mod", "module agent")] |}.

(** The loop variables [Run] starts with. *)
Definition init : Loop := {| takeInput := true; messages := [] |}.

Definition boot (e : Env) (schedule : list nat) : Sys Env :=
  {| world := NewAgent_world e; sched := schedule; trace := [] |}.

(** Two tool requests in one turn, then a plain answer. *)
Definition two_tools : anthropic.Message :=
  assistant [text "Let me look."; tool_use "toolu_1" "list_files" ".";
             tool_use "toolu_2" "read_file" "go.mod"].

Definition answer : anthropic.Message := assistant [text "It is a Go module."].

Definition session : Sys Env :=
  boot (env [("what is here?", None)] [inl two_tools; inl answer]) [1].

(** A model turn with two text segments and no tool request, and one
    that opens with a block that is not text. *)
Definition two_texts : anthropic.Message := assistant [text "first"; text "second"].

Definition thought_first : anthropic.Message := assistant [thinking; text "after"].

(** A tool request whose input the tool cannot parse. *)
Definition bad_read : Call :=
  {| toolID := "toolu_7"; toolName := "read_file"; toolInput := "" |}.

Definition bad_turn : anthropic.Message :=
  assistant [tool_use "toolu_6" "list_files" "."; tool_use "toolu_7" "read_file" ""].

(** A write and a read of one file in the same turn: whether the read
    finds the file depends on which goroutine gets through first. *)
Definition racing_read : Call :=
  {| toolID := "toolu_9"; toolName := "read_file"; toolInput := "notes.txt" |}.

Definition racing_turn : anthropic.Message :=
  assistant [tool_use "toolu_8" "write_file" "notes.txt";
             tool_use "toolu_9" "read_file" "notes.txt"].

(** The network side: connection 7 has been accepted, its handler has run
    as far as it can (it is parked on the completion slot). *)
Definition post (body : string) : http.Request :=
  {| http.Method := "POST"; http.Body := (body, None) |}.

Definition accepted (fault : option error) (e : Env) : World Env :=
  set_conns {[ 7 := http.fresh fault ]} (NewAgent_world e).

Definition knocked (fault : option error) (e : Env) : World Env :=
  final (handleRequest 7 (post "what is here?") (accepted fault e)).

Definition on_the_wire (fault : option error) : Sys Env :=
  {| world := knocked fault (env [] [inl answer]); sched := []; trace := [] |}.

End Scenario.

(** ** A handler, statement by statement

    The three channel operations of [handleRequest] on a POST (lines 97,
    100 and 108).  Each is a statement of its own: another goroutine, the
    loop or a second handler, can run between any two of them. *)

Section Steps.

Context {Ext : Type}.

(** [a.requestChan <- r] *)
Definition handleRequest_offer (r : http.Request) : Go (World Ext) unit :=
  chan_send requestChan set_requestChan r.

(** [a.responseChan <- w] *)
Definition handleRequest_store (w : http.ResponseWriter) : Go (World Ext) unit :=
  chan_send responseChan set_responseChan w.

(** [<-a.doneChan] *)
Definition handleRequest_wait : Go (World Ext) unit :=
  let* _ := chan_recv doneChan set_doneChan in
  ret tt.

End Steps.

(** ** Start

    [Start] registers two handlers on the process-wide
    [http.DefaultServeMux] and leaves [http.ListenAndServe] to a goroutine
    of its own, whose error is only printed: the goroutine is not part of
    what [Start] returns and is left out. *)

(** What the panics of a registration say: the wording differs between
    releases of net/http; here it names the patterns. *)
Definition invalid_pattern (pattern : string) : string :=
  "http: invalid pattern " +:+ pattern.

Definition conflicting_patterns (pattern earlier : string) : string :=
  "http: pattern " +:+ pattern +:+ " conflicts with pattern " +:+ earlier.

Section Process.

Context {Ext : Type}.

(** What the release of net/http in use makes of patterns: which ones it
    can parse, and which pairs it takes to clash.  Older releases refuse
    the empty pattern only and let two patterns clash when they are the
    same string; newer ones parse a method, a host and wildcards out of
    the pattern, and find clashes between different patterns too. *)
Variable parses : string -> bool.
Variable conflicts : string -> string -> bool.

(** The two handlers [Start] registers for an agent: its [handleRequest]
    and the closure that reports its health. *)
Inductive Handler : Type :=
| HandleRequest (a : Agent Ext)
| Health (a : Agent Ext).

(** The registered patterns, each with its handler, in the order they
    were registered. *)
Definition ServeMux : Type := list (string * Handler).

(** [http.HandleFunc(pattern, handler)]: it panics on a pattern it cannot
    parse and on one that clashes with a pattern registered before. *)
Definition HandleFunc (pattern : string) (handler : Handler) : Go ServeMux unit :=
  fun mux =>
    if negb (parses pattern) then Crash (invalid_pattern pattern) mux
    else
      match find (fun entry => conflicts entry.1 pattern) mux with
      | Some entry => Crash (conflicting_patterns pattern entry.1) mux
      | None => Ret tt (mux ++ [(pattern, handler)])
      end.

Definition Start (a : Agent Ext) : Go ServeMux (option error) :=
  HandleFunc ("/" +:+ name a) (HandleRequest a);;
  HandleFunc "/health" (Health a);;
  ret None.

End Process.

Arguments Handler : clear implicits.
Arguments ServeMux : clear implicits.

(** ** The listing helpers of coder_agent.go *)

(** [os.ModeDir] and [os.ModeSymlink], bits 31 and 27 of an [os.FileMode]. *)
Definition ModeDir : Z := 2147483648.
Definition ModeSymlink : Z := 134217728.

(** One [if mode&mask != 0 { WriteRune(c) } else { WriteRune('-') }]. *)
Definition perm_rune (mode mask : Z) (c : Ascii.ascii) : Ascii.ascii :=
  if Z.eqb (Z.land mode mask) 0 then "-"%char else c.

Definition formatPermissions (mode : Z) : string :=
  String (if negb (Z.eqb (Z.land mode ModeDir) 0) then "d"%char
          else if negb (Z.eqb (Z.land mode ModeSymlink) 0) then "l"%char
          else "-"%char)
 (String (perm_rune mode 256 "r")
 (String (perm_rune mode 128 "w")
 (String (perm_rune mode 64 "x")
 (String (perm_rune mode 32 "r")
 (String (perm_rune mode 16 "w")
 (String (perm_rune mode 8 "x")
 (String (perm_rune mode 4 "r")
 (String (perm_rune mode 2 "w")
 (String (perm_rune mode 1 "x") ""))))))))).

(** An [int64] result, wrapped round as Go does. *)
Definition int64 (z : Z) : Z := (z + 2 ^ 63) mod 2 ^ 64 - 2 ^ 63.

(** The [for] of [formatSize]: [n] is divided down while it is at least
    1024, [div] and [exp] keeping step.  The loop cannot run more often
    than an [int64] has bits, which is the fuel [formatSize] gives it. *)
Fixpoint formatSize_loop (fuel : nat) (n div exp : Z) : Z * Z :=
  match fuel with
  | O => (div, exp)
  | S fuel' =>
      if Z.leb 1024 n
      then formatSize_loop fuel' (Z.quot n 1024) (int64 (div * 1024)) (exp + 1)
      else (div, exp)
  end.

(** ["KMGTPE"[exp]]: [None] is the index out of range. *)
Definition unit_rune (exp : Z) : option Ascii.ascii :=
  if Z.ltb exp 0 then None else String.get (Z.to_nat exp) "KMGTPE".

(** [formatSize]; [Sprintf_1f size div] stands for
    [fmt.Sprintf("%.1f", float64(size)/float64(div))], and [None] for the
    panic of an index out of range. *)
Definition formatSize (Sprintf_1f : Z -> Z -> string) (size : Z) : option string :=
  if Z.ltb size 1024 then Some (pretty size)
  else
    let '(div, exp) := formatSize_loop 64 (Z.quot size 1024) 1024 0 in
    match unit_rune exp with
    | Some c => Some (Sprintf_1f size div +:+ String c "")
    | None => None
    end.

(** ** Vocabulary of the further statements *)

(** The request of a model call, field by field: the transcript
    [messages_], the tool list [tools_], and what line 187 to 199 fix. *)
Definition shown (tools_ : list anthropic.ToolUnionParam)
    (messages_ : list anthropic.MessageParam)
    (params : anthropic.MessageNewParams) : Prop :=
  anthropic.Messages params = messages_
  /\ anthropic.Tools params = tools_
  /\ anthropic.MaxTokens params = 1024%Z
  /\ anthropic.Model params = "claude-sonnet-4-20250514"
  /\ anthropic.System params = [system_prompt].

(** Every model call of a stretch of the record was given the transcript
    as it stood then ([messages_] before the stretch, the turns appended
    since), with the tool list [tools_]. *)
Fixpoint faithful (tools_ : list anthropic.ToolUnionParam)
    (messages_ : list anthropic.MessageParam) (evs : list Event) : Prop :=
  match evs with
  | [] => True
  | Append turn :: rest => faithful tools_ (messages_ ++ [turn]) rest
  | CallMessagesNew params :: rest =>
      shown tools_ messages_ params /\ faithful tools_ messages_ rest
  | _ :: rest => faithful tools_ messages_ rest
  end.

(** The tool list of a request names the tools of the table, one entry
    each, in the order of the table. *)
Definition lists_the_table {Ext : Type} (table : list (ToolDefinition Ext))
    (tools_ : list anthropic.ToolUnionParam) : Prop :=
  Forall2 (fun tool entry =>
             entry = anthropic.OfTool
                       {| anthropic.ToolName := Name tool;
                          anthropic.ToolDescription := Description tool;
                          anthropic.ToolInputSchema := InputSchema tool |})
          table tools_.

(** A model call whose transcript ends with a user turn. *)
Definition asks_as_user (ev : Event) : Prop :=
  match ev with
  | CallMessagesNew params =>
      exists blocks,
        last (anthropic.Messages params) = Some (anthropic.NewUserMessage blocks)
  | _ => True
  end.

(** At the loop head: when no input is due the transcript ends with a user
    turn. *)
Definition awaits_model (st : Loop) : Prop :=
  takeInput st = false ->
  exists blocks, last (messages st) = Some (anthropic.NewUserMessage blocks).

(** The requests [ExecuteTool] was run on, in the order of the record. *)
Definition dispatched (evs : list Event) : list Call :=
  omap (fun ev =>
          match ev with
          | CallExecuteTool id name_ input =>
              Some {| toolID := id; toolName := name_; toolInput := input |}
          | _ => None
          end) evs.

Definition is_function_call (ev : Event) : bool :=
  match ev with CallFunction _ _ => true | _ => false end.

(** The kind of file the first rune of a permission string stands for. *)
Definition file_kind (mode : Z) : Ascii.ascii :=
  if negb (Z.eqb (Z.land mode ModeDir) 0) then "d"%char
  else if negb (Z.eqb (Z.land mode ModeSymlink) 0) then "l"%char
  else "-"%char.

(** ** Further cases on the scripted environment *)
Module Cases.

Import Scenario.

(** The documentation agent, with a tool of its own. *)
Definition SearchGoDocumentation (input : RawMessage)
  : Go (World Env) (string * option error) :=
  fun w => Ret ("", Some "documentation section not found") w.

Definition DocTools : list (ToolDefinition Env) :=
  [ {| Name := "search_go_documentation"; Description := "Search Go documentation.";
       InputSchema := "package_name"; Function := SearchGoDocumentation |} ].

Definition doc : Agent Env := NewDocAgent Messages_New DocTools.

(** A tool table with a name registered twice. *)
Definition shadowing : Agent Env :=
  NewAgent Messages_New
    [ {| Name := "list_files"; Description := "first"; InputSchema := "path";
         Function := ListFiles |};
      {| Name := "read_file"; Description := "first"; InputSchema := "path";
         Function := ReadFile |};
      {| Name := "read_file"; Description := "second"; InputSchema := "path";
         Function := WriteFile |} ]
    readFromCli writeToCli "coder" 8080.

(** A request whose body cannot be read, and one that is not a POST. *)
Definition torn : http.Request :=
  {| http.Method := "POST"; http.Body := ("", Some "unexpected EOF") |}.

Definition get : http.Request :=
  {| http.Method := "GET"; http.Body := ("", None) |}.

(** Connections 7 and 8 accepted, nothing sent yet. *)
Definition two_accepted (e : Env) : World Env :=
  set_conns (<[8 := http.fresh None]> {[ 7 := http.fresh None ]}) (NewAgent_world e).

(** A rendering of the quotient cut off after one decimal; it is what
    [%.1f] prints where the quotient has no further decimals, as for
    1536 / 1024. *)
Definition one_decimal (size div : Z) : string :=
  pretty (size / div)%Z +:+ "." +:+ pretty ((size * 10 / div) mod 10)%Z.

End Cases.

(** * Properties *)

Section Facts.

Context {Ext : Type}.
Implicit Types (a : Agent Ext) (σ : Sys Ext) (w : World Ext) (st : Loop).
Implicit Types (response : anthropic.Message) (e : error).

(** ** Sequencing *)

Lemma bind_Ret {S A B : Type} (m : Go S A) (k : A -> Go S B) s x s' :
  m s = Ret x s' -> bind m k s = k x s'.
Proof. intros H. unfold bind. now rewrite H. Qed.

Lemma bind_Block {S A B : Type} (m : Go S A) (k : A -> Go S B) s s' :
  m s = Block s' -> bind m k s = Block s'.
Proof. intros H. unfold bind. now rewrite H. Qed.

Lemma bind_Crash {S A B : Type} (m : Go S A) (k : A -> Go S B) s why s' :
  m s = Crash why s' -> bind m k s = Crash why s'.
Proof. intros H. unfold bind. now rewrite H. Qed.

Lemma bind_assoc {S A B C : Type} (m : Go S A) (k : A -> Go S B) (h : B -> Go S C) s :
  bind (bind m k) h s = bind m (fun x => bind (k x) h) s.
Proof. unfold bind. now destruct (m s). Qed.

Lemma extern_Ret {A : Type} (f : Go (World Ext) A) σ x w' :
  f (world σ) = Ret x w' ->
  extern f σ = Ret x {| world := w'; sched := sched σ; trace := trace σ |}.
Proof. intros H. unfold extern. now rewrite H. Qed.

(** ** The loop over the tool table *)

Lemma find_Name_None (l : list (ToolDefinition Ext)) (toolName_ : string) :
  toolName_ ∉ map Name l ->
  find (fun tool => String.eqb (Name tool) toolName_) l = None.
Proof.
  induction l as [|tool l IH]; simpl; intros Hno; [reflexivity|].
  destruct (String.eqb_spec (Name tool) toolName_) as [Heq|Hne].
  - exfalso. apply Hno. rewrite Heq. apply list_elem_of_here.
  - apply IH. intros Hin. apply Hno. now apply list_elem_of_further.
Qed.

(** ** The pass that starts the goroutines *)

Lemma Run_fan_out_spec (content : list anthropic.ContentBlockUnion) :
  forall toolCount running,
    Run_fan_out content toolCount running =
      (toolCount + length (tool_requests {| anthropic.Role := ""; anthropic.Content := content |}),
       running ++ tool_requests {| anthropic.Role := ""; anthropic.Content := content |}).
Proof.
  unfold tool_requests. simpl.
  induction content as [|c rest IH]; intros toolCount running; simpl.
  - now rewrite Nat.add_0_r, app_nil_r.
  - destruct (anthropic.AsAny c); rewrite IH; simpl; try reflexivity.
    now rewrite Nat.add_succ_r, <- app_assoc.
Qed.

Lemma Run_fan_out_requests response :
  Run_fan_out (anthropic.Content response) 0 [] =
    (length (tool_requests response), tool_requests response).
Proof. now rewrite Run_fan_out_spec. Qed.

(** ** A response without tool requests *)

Lemma Run_respond_no_requests a messages_ response σ :
  tool_requests response = [] ->
  Run_respond a messages_ response σ =
    match anthropic.Content response with
    | [] =>
        Crash "index out of range [0] with length 0"
          {| world := world σ; sched := sched σ;
             trace := trace σ ++ [Append (anthropic.ToParam response)] |}
    | c :: _ =>
        bind (extern (writeOutput a (anthropic.Text c)))
             (fun _ => ret {| takeInput := true;
                              messages := messages_ ++ [anthropic.ToParam response] |})
          {| world := world σ; sched := sched σ;
             trace := (trace σ ++ [Append (anthropic.ToParam response)])
                        ++ [CallWriteOutput (anthropic.Text c)] |}
    end.
Proof.
  intros Hnone. unfold Run_respond.
  rewrite Run_fan_out_requests, Hnone. simpl.
  destruct (anthropic.Content response); reflexivity.
Qed.

(** C3: for a tool name that is not in the agent's tool set, [ExecuteTool]
    returns the failed result with the fixed message "Tool not found"; the
    world is left as it was and the record gains the dispatcher's own
    entry only, so no registered tool function was invoked. *)
Theorem ExecuteTool_unknown_tool a (toolID_ toolName_ : string) (toolInput_ : RawMessage) σ :
  toolName_ ∉ map Name (tools a) ->
  ExecuteTool a toolID_ toolName_ toolInput_ σ =
    Ret (anthropic.NewToolResultBlock toolID_ "Tool not found" true)
        {| world := world σ; sched := sched σ;
           trace := trace σ ++ [CallExecuteTool toolID_ toolName_ toolInput_] |}.
Proof.
  intros Hunknown. unfold ExecuteTool.
  now rewrite (find_Name_None _ _ Hunknown).
Qed.

(** C10: in the emitting branch the loop indexes [response.Content[0]]
    with no guard.  For a response without tool requests, an empty content
    list makes the iteration panic with an index out of range, right after
    the response turn was appended and before anything is written; with at
    least one segment the branch is the write of that segment's text. *)
Theorem emitting_indexes_first_segment_unguarded a messages_ response σ :
  tool_requests response = [] ->
  (anthropic.Content response = [] ->
     Run_respond a messages_ response σ =
       Crash "index out of range [0] with length 0"
         {| world := world σ; sched := sched σ;
            trace := trace σ ++ [Append (anthropic.ToParam response)] |})
  /\ (forall c rest, anthropic.Content response = c :: rest ->
        Run_respond a messages_ response σ =
          (emit (Append (anthropic.ToParam response));;
           emit (CallWriteOutput (anthropic.Text c));;
           let* _ := extern (writeOutput a (anthropic.Text c)) in
           ret {| takeInput := true;
                  messages := messages_ ++ [anthropic.ToParam response] |}) σ).
Proof.
  intros Hnone. rewrite (Run_respond_no_requests _ _ _ _ Hnone). split.
  - now intros ->.
  - now intros c rest ->.
Qed.

(** C2: for a response without tool requests the loop goes to emitting:
    the record gains the response turn and then the write of the text of
    the first content segment, nothing else (no dispatcher entry, no later
    segment); when that write returns, whatever it reports, the loop goes
    round with [takeInput] set. *)
Theorem zero_tool_turn_is_emitted a messages_ response σ :
  tool_requests response = [] ->
  trace (final (Run_respond a messages_ response σ)) =
    trace σ ++ Append (anthropic.ToParam response)
      :: map (fun c => CallWriteOutput (anthropic.Text c))
             (take 1 (anthropic.Content response))
  /\ (forall c rest err w',
        anthropic.Content response = c :: rest ->
        writeOutput a (anthropic.Text c) (world σ) = Ret err w' ->
        Run_respond a messages_ response σ =
          Ret {| takeInput := true;
                 messages := messages_ ++ [anthropic.ToParam response] |}
              {| world := w'; sched := sched σ;
                 trace := trace σ ++ [Append (anthropic.ToParam response);
                                      CallWriteOutput (anthropic.Text c)] |}).
Proof.
  intros Hnone. rewrite (Run_respond_no_requests _ _ _ _ Hnone). split.
  - destruct (anthropic.Content response) as [|c rest]; simpl; [reflexivity|].
    unfold bind, extern. simpl.
    destruct (writeOutput a (anthropic.Text c) (world σ)); simpl;
      now rewrite <- app_assoc.
  - intros c rest err w' -> Hwrite.
    unfold bind, extern. simpl. rewrite Hwrite. simpl.
    now rewrite <- app_assoc.
Qed.

(** ** Iterations *)

Lemma Run_loop_add a tools_ (k n : nat) :
  forall st σ,
    Run_loop (k + n) a tools_ st σ =
      bind (Run_loop k a tools_ st)
           (fun r => match r with
                     | inl st' => Run_loop n a tools_ st'
                     | inr out => ret (inr out)
                     end) σ.
Proof.
  induction k as [|k IH]; intros st σ; [reflexivity|].
  simpl. rewrite bind_assoc.
  destruct (Run_body a tools_ st σ) as [[st'|out] σ'|σ'|why σ'] eqn:Hbody.
  - rewrite !(bind_Ret _ _ _ _ _ Hbody). apply IH.
  - now rewrite !(bind_Ret _ _ _ _ _ Hbody).
  - now rewrite !(bind_Block _ _ _ _ Hbody).
  - now rewrite !(bind_Crash _ _ _ _ _ Hbody).
Qed.

Lemma Run_body_read_error a tools_ st σ input e w' :
  takeInput st = true ->
  readInput a (world σ) = Ret (input, Some e) w' ->
  Run_body a tools_ st σ =
    Ret (inr ("", e))
        {| world := w'; sched := sched σ; trace := trace σ ++ [CallReadInput] |}.
Proof.
  intros Htake Hread. unfold Run_body, Run_input. rewrite Htake.
  unfold bind, emit, extern. simpl. now rewrite Hread.
Qed.

Lemma Run_body_infer_error a tools_ st σ messages_ σ1 e w' :
  Run_input a st σ = Ret (inl messages_) σ1 ->
  client a (Infer_params messages_ tools_) (world σ1) = Ret (inr e) w' ->
  Run_body a tools_ st σ =
    Ret (inr ("", e))
        {| world := w'; sched := sched σ1;
           trace := trace σ1 ++ [CallMessagesNew (Infer_params messages_ tools_)] |}.
Proof.
  intros Hin Hcl. unfold Run_body. rewrite (bind_Ret _ _ _ _ _ Hin).
  unfold Infer, bind, emit, extern. simpl. now rewrite Hcl.
Qed.

(** C7: a failed read and a failed model call each end [Run].  Wherever
    the loop stands after [k] iterations, if [readInput] (when input is
    due) or the model client returns an error, [Run] returns the empty
    string and that error; the failing call is the last entry of the
    record, and allowing more iterations changes nothing. *)
Theorem read_and_model_errors_are_fatal a (k : nat) (σ0 : Sys Ext) st σ :
  Run k a σ0 = Ret (inl st) σ ->
  (forall input e w',
      takeInput st = true ->
      readInput a (world σ) = Ret (input, Some e) w' ->
      forall n,
        Run (k + S n) a σ0 =
          Ret (inr ("", e))
              {| world := w'; sched := sched σ; trace := trace σ ++ [CallReadInput] |})
  /\ (forall messages_ σ1 e w',
        Run_input a st σ = Ret (inl messages_) σ1 ->
        client a (Infer_params messages_ (anthropicTools a)) (world σ1) = Ret (inr e) w' ->
        forall n,
          Run (k + S n) a σ0 =
            Ret (inr ("", e))
                {| world := w'; sched := sched σ1;
                   trace := trace σ1 ++
                     [CallMessagesNew (Infer_params messages_ (anthropicTools a))] |}).
Proof.
  unfold Run. intros Hk. split.
  - intros input e w' Htake Hread n.
    rewrite Run_loop_add, (bind_Ret _ _ _ _ _ Hk). simpl.
    now rewrite (bind_Ret _ _ _ _ _ (Run_body_read_error _ _ _ _ _ _ _ Htake Hread)).
  - intros messages_ σ1 e w' Hin Hcl n.
    rewrite Run_loop_add, (bind_Ret _ _ _ _ _ Hk). simpl.
    now rewrite (bind_Ret _ _ _ _ _ (Run_body_infer_error _ _ _ _ _ _ _ _ Hin Hcl)).
Qed.

(** ** What a piece of the loop can add to the record *)

Lemma logs_ret {A : Type} (P : Event -> Prop) (x : A) : logs (Ext:=Ext) P (ret x).
Proof. intros s. exists []. simpl. now rewrite app_nil_r. Qed.

Lemma logs_panic {A : Type} (P : Event -> Prop) why : logs (Ext:=Ext) (A:=A) P (panic why).
Proof. intros s. exists []. simpl. now rewrite app_nil_r. Qed.

Lemma logs_park {A : Type} (P : Event -> Prop) : logs (Ext:=Ext) (A:=A) P park.
Proof. intros s. exists []. simpl. now rewrite app_nil_r. Qed.

Lemma logs_emit (P : Event -> Prop) (ev : Event) : P ev -> logs (Ext:=Ext) P (emit ev).
Proof. intros HP s. exists [ev]. simpl. split; [reflexivity|]. now constructor. Qed.

Lemma logs_extern {A : Type} (P : Event -> Prop) (f : Go (World Ext) A) : logs P (extern f).
Proof.
  intros s. exists []. unfold extern.
  destruct (f (world s)); simpl; now rewrite app_nil_r.
Qed.

Lemma logs_pick (P : Event -> Prop) (n : nat) : logs (Ext:=Ext) P (pick n).
Proof.
  intros s. exists []. unfold pick.
  destruct (sched s); simpl; now rewrite app_nil_r.
Qed.

Lemma logs_bind {A B : Type} (P : Event -> Prop) (m : Go (Sys Ext) A)
    (k : A -> Go (Sys Ext) B) :
  logs P m -> (forall x, logs P (k x)) -> logs P (bind m k).
Proof.
  intros Hm Hk s. destruct (Hm s) as (evs & Htr & Hall). unfold bind.
  destruct (m s) as [x s'|s'|why s']; simpl in *; eauto.
  destruct (Hk x s') as (evs' & Htr' & Hall').
  exists (evs ++ evs'). rewrite Htr', Htr, <- app_assoc. split; [reflexivity|].
  now apply Forall_app.
Qed.

Lemma logs_weaken {A : Type} (P Q : Event -> Prop) (m : Go (Sys Ext) A) :
  (forall ev, P ev -> Q ev) -> logs P m -> logs Q m.
Proof.
  intros HPQ Hm s. destruct (Hm s) as (evs & Htr & Hall).
  exists evs. split; [assumption|]. eapply Forall_impl; eauto.
Qed.

Create HintDb logs discriminated.
Hint Resolve logs_ret logs_panic logs_park logs_extern logs_pick : logs.

Lemma logs_ExecuteTool a (toolID_ toolName_ : string) (toolInput_ : RawMessage) :
  logs dispatch_event (ExecuteTool a toolID_ toolName_ toolInput_).
Proof.
  unfold ExecuteTool.
  apply logs_bind; [now apply logs_emit|]. intros _.
  destruct (find _ _) as [toolDef|]; [|auto with logs].
  apply logs_bind; [now apply logs_emit|]. intros _.
  apply logs_bind; [auto with logs|]. intros [result [err|]]; auto with logs.
Qed.

Lemma logs_Run_fan_in a (toolCount : nat) :
  forall running toolResults,
    logs dispatch_event (Run_fan_in a toolCount running toolResults).
Proof.
  induction toolCount as [|n IH]; intros running toolResults; simpl;
    [auto with logs|].
  destruct running as [|g running]; [auto with logs|].
  apply logs_bind; [auto with logs|]. intros k.
  destruct (_ !! k); [|auto with logs].
  apply logs_bind; [apply logs_ExecuteTool|]. intros r. apply IH.
Qed.

Lemma logs_append_turn (P : Event -> Prop) messages_ turn :
  P (Append turn) -> logs (Ext:=Ext) P (append_turn messages_ turn).
Proof.
  intros HP. unfold append_turn.
  apply logs_bind; [now apply logs_emit|]. auto with logs.
Qed.

Lemma dispatch_respond_event (ev : Event) : dispatch_event ev -> respond_event ev.
Proof. now destruct ev. Qed.

Lemma logs_Run_respond a messages_ response :
  logs respond_event (Run_respond a messages_ response).
Proof.
  unfold Run_respond.
  apply logs_bind; [now apply logs_append_turn|]. intros messages'.
  destruct (Run_fan_out _ _ _) as [toolCount running].
  apply logs_bind.
  { eapply logs_weaken; [apply dispatch_respond_event|apply logs_Run_fan_in]. }
  intros toolResults. destruct (Nat.eqb _ _).
  - destruct (anthropic.Content response) as [|c rest]; [auto with logs|].
    apply logs_bind; [now apply logs_emit|]. intros _.
    apply logs_bind; auto with logs.
  - apply logs_bind; [now apply logs_append_turn|]. auto with logs.
Qed.

(** ** The dispatcher *)

(** Whatever [ExecuteTool] returns is a tool result for the identifier it
    was called with. *)
Lemma ExecuteTool_Ret a (toolID_ toolName_ : string) (toolInput_ : RawMessage) σ r σ' :
  ExecuteTool a toolID_ toolName_ toolInput_ σ = Ret r σ' ->
  exists content isError, r = anthropic.OfToolResult toolID_ content isError.
Proof.
  unfold ExecuteTool, bind, emit, extern, ret. simpl.
  destruct (find _ _) as [toolDef|]; simpl.
  - destruct (Function toolDef toolInput_ (world σ)) as [[result [err|]] w'|w'|why w'];
      simpl; intros H; inversion H; eauto.
  - intros H; inversion H; eauto.
Qed.

Lemma executed_answers a r (g : Call) : executed a r g -> answers r g.
Proof. intros (s & s' & H). exact (ExecuteTool_Ret _ _ _ _ _ _ _ H). Qed.

(** With a registered tool whose function returns, so does [ExecuteTool]. *)
Lemma ExecuteTool_known a (toolID_ toolName_ : string) (toolInput_ : RawMessage) σ
    toolDef result err w' :
  find (fun tool => String.eqb (Name tool) toolName_) (tools a) = Some toolDef ->
  Function toolDef toolInput_ (world σ) = Ret (result, err) w' ->
  ExecuteTool a toolID_ toolName_ toolInput_ σ =
    Ret (match err with
         | Some e => anthropic.NewToolResultBlock toolID_ e true
         | None => anthropic.NewToolResultBlock toolID_ result false
         end)
        {| world := w'; sched := sched σ;
           trace := trace σ ++ [CallExecuteTool toolID_ toolName_ toolInput_;
                                CallFunction (Name toolDef) toolInput_] |}.
Proof.
  intros Hfind Hfun. unfold ExecuteTool. rewrite Hfind.
  unfold bind, emit, extern, ret. simpl. rewrite Hfun. simpl.
  rewrite <- app_assoc. now destruct err.
Qed.

Lemma ExecuteTool_responsive a (toolID_ toolName_ : string) (toolInput_ : RawMessage) σ :
  responsive a ->
  exists r σ', ExecuteTool a toolID_ toolName_ toolInput_ σ = Ret r σ'.
Proof.
  intros Hresp.
  destruct (find (fun tool => String.eqb (Name tool) toolName_) (tools a))
    as [toolDef|] eqn:Hfind.
  - assert (Hin : In toolDef (tools a)) by (apply find_some in Hfind; tauto).
    unfold responsive in Hresp. rewrite List.Forall_forall in Hresp.
    destruct (Hresp _ Hin toolInput_ (world σ)) as ([result err] & w' & Hfun).
    rewrite (ExecuteTool_known _ _ _ _ _ _ _ _ _ Hfind Hfun). eauto.
  - unfold ExecuteTool. rewrite Hfind. unfold bind, emit, ret. simpl. eauto.
Qed.

Lemma pick_Ret (n : nat) σ :
  0 < n -> exists k σ', pick n σ = Ret k σ' /\ k < n.
Proof.
  intros Hn. unfold pick. destruct (sched σ) as [|k rest].
  - exists 0, σ. split; [reflexivity|assumption].
  - eexists _, _. split; [reflexivity|]. apply Nat.mod_upper_bound. lia.
Qed.

(** The receiving loop, when every tool function returns: it returns the
    results of the running goroutines, each executed once, in the order
    the scheduler let them through. *)
Lemma Run_fan_in_responsive a :
  responsive a ->
  forall (n : nat) (running : list Call) toolResults σ,
    length running = n ->
    exists results order σ',
      Run_fan_in a n running toolResults σ = Ret (toolResults ++ results) σ'
      /\ order ≡ₚ running
      /\ Forall2 (executed a) results order.
Proof.
  intros Hresp. induction n as [|n IH]; intros running toolResults σ Hlen.
  - destruct running; [|discriminate].
    exists [], [], σ. simpl. rewrite app_nil_r. repeat split; constructor.
  - destruct running as [|g0 running0]; [discriminate|].
    set (running := g0 :: running0) in *.
    destruct (pick_Ret (length running) σ) as (k & σ1 & Hpick & Hk);
      [simpl; lia|].
    destruct (lookup_lt_is_Some_2 running k Hk) as [g Hg].
    destruct (ExecuteTool_responsive a (toolID g) (toolName g) (toolInput g) σ1 Hresp)
      as (r & σ2 & Hexec).
    destruct (IH (delete k running) (toolResults ++ [r]) σ2) as (results & order & σ' & Hin & Hperm & Hall).
    { rewrite length_delete by eauto. lia. }
    exists (r :: results), (g :: order), σ'.
    split; [|split].
    + change (Run_fan_in a (S n) running toolResults σ) with
        (bind (pick (length running))
           (fun k => match running !! k with
                     | None => park
                     | Some g =>
                         bind (ExecuteTool a (toolID g) (toolName g) (toolInput g))
                           (fun toolResult =>
                              Run_fan_in a n (delete k running)
                                (toolResults ++ [toolResult]))
                     end) σ).
      rewrite (bind_Ret _ _ _ _ _ Hpick), Hg, (bind_Ret _ _ _ _ _ Hexec), Hin.
      now rewrite <- app_assoc.
    + rewrite Hperm. symmetry. now apply delete_Permutation.
    + constructor; [|assumption]. now exists σ1, σ2.
Qed.

(** A response with tool requests, when every tool function returns. *)
Lemma Run_respond_requests a messages_ response σ :
  responsive a ->
  tool_requests response <> [] ->
  exists toolResults order σ',
    Run_respond a messages_ response σ =
      Ret {| takeInput := false;
             messages := messages_ ++ [anthropic.ToParam response;
                                       anthropic.NewUserMessage toolResults] |} σ'
    /\ order ≡ₚ tool_requests response
    /\ Forall2 (executed a) toolResults order.
Proof.
  intros Hresp Hsome.
  set (σ1 := {| world := world σ; sched := sched σ;
                trace := trace σ ++ [Append (anthropic.ToParam response)] |}).
  destruct (Run_fan_in_responsive a Hresp (length (tool_requests response))
              (tool_requests response) [] σ1 eq_refl)
    as (toolResults & order & σ2 & Hin & Hperm & Hall).
  simpl in Hin.
  exists toolResults, order,
    {| world := world σ2; sched := sched σ2;
       trace := trace σ2 ++ [Append (anthropic.NewUserMessage toolResults)] |}.
  split; [|split; assumption].
  unfold Run_respond. rewrite Run_fan_out_requests.
  unfold append_turn at 1. unfold bind at 1 2. simpl.
  fold σ1. unfold bind at 1. rewrite Hin.
  assert (Hlen : length toolResults = length (tool_requests response)).
  { rewrite (Forall2_length _ _ _ Hall). now rewrite Hperm. }
  destruct toolResults as [|r toolResults].
  { destruct (tool_requests response); [congruence|discriminate]. }
  simpl. unfold append_turn, bind, emit, ret. simpl.
  now rewrite <- app_assoc.
Qed.

Lemma answers_result_ids (toolResults : list anthropic.ContentBlockParamUnion)
    (order : list Call) :
  Forall2 answers toolResults order ->
  map result_id toolResults = map (fun g => Some (toolID g)) order.
Proof.
  induction 1 as [|r g rs gs (content & isError & ->) _ IH]; simpl;
    [reflexivity|now rewrite IH].
Qed.

(** ** Reading a completed iteration backwards *)

Lemma bind_Ret_inv {S A B : Type} (m : Go S A) (k : A -> Go S B) s x s' :
  bind m k s = Ret x s' -> exists y s1, m s = Ret y s1 /\ k y s1 = Ret x s'.
Proof. unfold bind. destruct (m s) as [y s1|s1|why s1]; try discriminate. eauto. Qed.

Lemma extern_Ret_inv {A : Type} (f : Go (World Ext) A) σ x σ' :
  extern f σ = Ret x σ' ->
  exists w', f (world σ) = Ret x w'
             /\ σ' = {| world := w'; sched := sched σ; trace := trace σ |}.
Proof.
  unfold extern. destruct (f (world σ)) as [y w'|w'|why w']; try discriminate.
  intros H. inversion H. eauto.
Qed.

Lemma logs_Ret {A : Type} (P : Event -> Prop) (m : Go (Sys Ext) A) σ x σ' :
  logs P m -> m σ = Ret x σ' ->
  exists evs, trace σ' = trace σ ++ evs /\ Forall P evs.
Proof. intros Hm Heq. destruct (Hm σ) as (evs & Htr & Hall). rewrite Heq in Htr. eauto. Qed.

Lemma Run_fan_in_Ret a (n : nat) :
  forall (running : list Call) toolResults σ res σ',
    Run_fan_in a n running toolResults σ = Ret res σ' ->
    exists results, res = toolResults ++ results /\ length results = n.
Proof.
  induction n as [|n IH]; intros running toolResults σ res σ' Hrun.
  - inversion Hrun. exists []. now rewrite app_nil_r.
  - simpl in Hrun. destruct running as [|g0 running0]; [discriminate|].
    apply bind_Ret_inv in Hrun as (k & σ1 & _ & Hrun).
    destruct (_ !! k) as [g|]; [|discriminate].
    apply bind_Ret_inv in Hrun as (r & σ2 & _ & Hrun).
    apply IH in Hrun as (results & -> & Hlen).
    exists (r :: results). rewrite <- app_assoc. simpl. now rewrite Hlen.
Qed.

Lemma Run_fan_in_Ret_executed a (n : nat) :
  forall (running : list Call) toolResults σ res σ',
    length running = n ->
    Run_fan_in a n running toolResults σ = Ret res σ' ->
    exists results order,
      res = toolResults ++ results
      /\ order ≡ₚ running
      /\ Forall2 (executed a) results order.
Proof.
  induction n as [|n IH]; intros running toolResults σ res σ' Hlen Hrun.
  - destruct running; [|discriminate]. inversion Hrun.
    exists [], []. rewrite app_nil_r. repeat split; constructor.
  - simpl in Hrun. destruct running as [|g0 running0]; [discriminate|].
    set (running := g0 :: running0) in *.
    apply bind_Ret_inv in Hrun as (k & σ1 & _ & Hrun).
    destruct (running !! k) as [g|] eqn:Hg; [|discriminate].
    apply bind_Ret_inv in Hrun as (r & σ2 & Hexec & Hrun).
    apply IH in Hrun as (results & order & -> & Hperm & Hall).
    2:{ rewrite length_delete by eauto. lia. }
    exists (r :: results), (g :: order). rewrite <- app_assoc.
    split; [reflexivity|]. split.
    + rewrite Hperm. symmetry. now apply delete_Permutation.
    + constructor; [|assumption]. now exists σ1, σ2.
Qed.

Lemma pick_Ret_inv (n k : nat) σ σ1 :
  pick n σ = Ret k σ1 -> world σ1 = world σ /\ trace σ1 = trace σ.
Proof.
  unfold pick. destruct (sched σ) as [|k' rest]; intros H; inversion H; auto.
Qed.

(** The same, with the states the calls ran between. *)
Lemma Run_fan_in_Ret_chained a (n : nat) :
  forall (running : list Call) toolResults σ res σ',
    length running = n ->
    Run_fan_in a n running toolResults σ = Ret res σ' ->
    exists steps,
      res = toolResults ++ map outcome steps
      /\ map request steps ≡ₚ running
      /\ chained a σ steps σ'.
Proof.
  induction n as [|n IH]; intros running toolResults σ res σ' Hlen Hrun.
  - destruct running; [|discriminate]. inversion Hrun.
    exists []. rewrite app_nil_r. repeat split; constructor.
  - simpl in Hrun. destruct running as [|g0 running0]; [discriminate|].
    set (running := g0 :: running0) in *.
    apply bind_Ret_inv in Hrun as (k & σ1 & Hpick & Hrun).
    apply pick_Ret_inv in Hpick as (Hw & Htr).
    destruct (running !! k) as [g|] eqn:Hg; [|discriminate].
    apply bind_Ret_inv in Hrun as (r & σ2 & Hexec & Hrun).
    apply IH in Hrun as (steps & -> & Hperm & Hchain).
    2:{ rewrite length_delete by eauto. unfold running in *. simpl in *. lia. }
    exists ({| before := σ1; request := g; outcome := r; after := σ2 |} :: steps).
    simpl. rewrite <- app_assoc.
    split; [reflexivity|]. split.
    + rewrite Hperm. symmetry. now apply delete_Permutation.
    + auto.
Qed.

Lemma chained_ran a (steps : list (Step Ext)) :
  forall σ σ',
    chained a σ steps σ' ->
    Forall (fun step =>
              ExecuteTool a (toolID (request step)) (toolName (request step))
                (toolInput (request step)) (before step) =
                Ret (outcome step) (after step)) steps.
Proof.
  induction steps as [|step steps IH]; intros σ σ' Hchain; [constructor|].
  destruct Hchain as (_ & _ & Hexec & Hrest).
  constructor; [exact Hexec|]. exact (IH _ _ Hrest).
Qed.

Lemma Run_input_Ret a st σ r σ1 :
  Run_input a st σ = Ret r σ1 ->
  (takeInput st = false /\ r = inl (messages st) /\ σ1 = σ)
  \/ (takeInput st = true /\
      exists input err w',
        readInput a (world σ) = Ret (input, err) w' /\
        match err with
        | Some e =>
            r = inr ("", e)
            /\ σ1 = {| world := w'; sched := sched σ;
                       trace := trace σ ++ [CallReadInput] |}
        | None =>
            let turn := anthropic.NewUserMessage [anthropic.NewTextBlock input] in
            r = inl (messages st ++ [turn])
            /\ σ1 = {| world := w'; sched := sched σ;
                       trace := trace σ ++ [CallReadInput; Append turn] |}
        end).
Proof.
  unfold Run_input. destruct (takeInput st).
  - intros H. right. split; [reflexivity|].
    unfold bind, emit, extern in H. simpl in H.
    destruct (readInput a (world σ)) as [[input [e|]] w'|w'|why w'] eqn:Hread;
      try discriminate; simpl in H; unfold append_turn, bind, emit, ret in H;
      simpl in H; inversion H; subst; exists input; eexists _, w';
      (split; [reflexivity|]); simpl; rewrite <- ?app_assoc; auto.
  - intros H. inversion H. now left.
Qed.

Lemma Infer_Ret a messages_ tools_ σ r σ' :
  Infer a messages_ tools_ σ = Ret r σ' ->
  exists w', client a (Infer_params messages_ tools_) (world σ) = Ret r w'
             /\ σ' = {| world := w'; sched := sched σ;
                        trace := trace σ ++ [CallMessagesNew (Infer_params messages_ tools_)] |}.
Proof.
  unfold Infer, bind, emit, extern. simpl.
  destruct (client a _ (world σ)) as [[response|e] w'|w'|why w'];
    try discriminate; intros H; inversion H; eauto.
Qed.

Lemma Run_respond_Ret a messages_ response σ st' σ' :
  Run_respond a messages_ response σ = Ret st' σ' ->
  exists dispatch toolResults post,
    trace σ' = trace σ ++ Append (anthropic.ToParam response) :: dispatch ++ post
    /\ Forall dispatch_event dispatch
    /\ length toolResults = length (tool_requests response)
    /\ (toolResults = [] /\ emitted messages_ response post st'
        \/ fed_back messages_ response toolResults post st').
Proof.
  unfold Run_respond. rewrite Run_fan_out_requests. intros H.
  apply bind_Ret_inv in H as (messages1 & σ1 & Happ & H).
  unfold append_turn, bind, emit, ret in Happ. simpl in Happ.
  inversion Happ; subst messages1 σ1; clear Happ.
  apply bind_Ret_inv in H as (toolResults & σ2 & Hin & H).
  destruct (logs_Ret _ _ _ _ _ (logs_Run_fan_in a _ _ _) Hin) as (dispatch & Htr & Hall).
  apply Run_fan_in_Ret in Hin as (results & Hres & Hlen). simpl in Hres, Htr. subst results.
  exists dispatch, toolResults.
  destruct toolResults as [|r toolResults]; simpl in H.
  - destruct (anthropic.Content response) as [|c rest] eqn:Hcontent; [discriminate|].
    apply bind_Ret_inv in H as ([] & σ3 & Hemit & H).
    unfold emit in Hemit. inversion Hemit; subst σ3; clear Hemit.
    apply bind_Ret_inv in H as (err & σ4 & Hwrite & H).
    apply extern_Ret_inv in Hwrite as (w' & _ & ->).
    inversion H; subst st' σ'; clear H. simpl.
    exists [CallWriteOutput (anthropic.Text c)].
    rewrite Htr, <- !app_assoc. simpl.
    split; [reflexivity|]. split; [assumption|]. split; [assumption|].
    left. split; [reflexivity|]. now exists c, rest.
  - unfold append_turn, bind, emit, ret in H. simpl in H.
    inversion H; subst st' σ'; clear H. simpl.
    exists [Append (anthropic.NewUserMessage (r :: toolResults))].
    rewrite Htr, <- !app_assoc. simpl.
    split; [reflexivity|]. split; [assumption|]. split; [assumption|].
    right. split; [discriminate|]. split; [reflexivity|].
    rewrite <- ?app_assoc. reflexivity.
Qed.

(** The results a response with tool requests is answered with. *)
Lemma Run_respond_Ret_requests a messages_ response σ st' σ' :
  tool_requests response <> [] ->
  Run_respond a messages_ response σ = Ret st' σ' ->
  exists toolResults order,
    st' = {| takeInput := false;
             messages := messages_ ++ [anthropic.ToParam response;
                                       anthropic.NewUserMessage toolResults] |}
    /\ order ≡ₚ tool_requests response
    /\ Forall2 (executed a) toolResults order.
Proof.
  intros Hsome. unfold Run_respond. rewrite Run_fan_out_requests. intros H.
  apply bind_Ret_inv in H as (messages1 & σ1 & Happ & H).
  unfold append_turn, bind, emit, ret in Happ. simpl in Happ.
  inversion Happ; subst messages1 σ1; clear Happ.
  apply bind_Ret_inv in H as (toolResults & σ2 & Hin & H).
  apply Run_fan_in_Ret_executed in Hin as (results & order & Hres & Hperm & Hall);
    [|reflexivity].
  simpl in Hres. subst results.
  exists toolResults, order.
  destruct toolResults as [|r toolResults].
  { exfalso. apply Hsome. inversion Hall; subst order.
    now apply Permutation_nil_l in Hperm. }
  simpl in H. unfold append_turn, bind, emit, ret in H. simpl in H.
  inversion H. rewrite <- app_assoc. auto.
Qed.

Lemma Run_respond_Ret_chained a messages_ response σ st' σ' :
  tool_requests response <> [] ->
  Run_respond a messages_ response σ = Ret st' σ' ->
  exists steps σ1,
    chained a {| world := world σ; sched := sched σ;
                 trace := trace σ ++ [Append (anthropic.ToParam response)] |} steps σ1
    /\ map request steps ≡ₚ tool_requests response
    /\ st' = {| takeInput := false;
                messages := messages_ ++ [anthropic.ToParam response;
                                          anthropic.NewUserMessage (map outcome steps)] |}
    /\ σ' = {| world := world σ1; sched := sched σ1;
               trace := trace σ1 ++ [Append (anthropic.NewUserMessage (map outcome steps))] |}.
Proof.
  intros Hsome. unfold Run_respond. rewrite Run_fan_out_requests. intros H.
  apply bind_Ret_inv in H as (messages1 & σ1 & Happ & H).
  unfold append_turn, bind, emit, ret in Happ. simpl in Happ.
  inversion Happ; subst messages1 σ1; clear Happ.
  apply bind_Ret_inv in H as (toolResults & σ2 & Hin & H).
  apply Run_fan_in_Ret_chained in Hin as (steps & Hres & Hperm & Hchain);
    [|reflexivity].
  simpl in Hres. subst toolResults.
  exists steps, σ2.
  destruct steps as [|step steps].
  { exfalso. apply Hsome. simpl in Hperm. now apply Permutation_nil_l in Hperm. }
  simpl in H. unfold append_turn, bind, emit, ret in H. simpl in H.
  inversion H. rewrite <- app_assoc. auto.
Qed.

Lemma Run_body_Ret_inl a tools_ st σ st' σ' :
  Run_body a tools_ st σ = Ret (inl st') σ' ->
  exists pre messages1 response dispatch toolResults post,
    arrival st pre messages1
    /\ trace σ' = trace σ ++ pre
         ++ CallMessagesNew (Infer_params messages1 tools_)
         :: Append (anthropic.ToParam response) :: dispatch ++ post
    /\ Forall dispatch_event dispatch
    /\ length toolResults = length (tool_requests response)
    /\ (toolResults = [] /\ emitted messages1 response post st'
        \/ fed_back messages1 response toolResults post st').
Proof.
  unfold Run_body. intros H.
  apply bind_Ret_inv in H as (r & σ1 & Hin & H).
  destruct r as [messages1|out]; [|discriminate].
  apply bind_Ret_inv in H as (r & σ2 & Hinf & H).
  destruct r as [response|err]; [|discriminate].
  apply bind_Ret_inv in H as (st1 & σ3 & Hres & H).
  inversion H; subst st1 σ3; clear H.
  apply Infer_Ret in Hinf as (w2 & _ & ->).
  apply Run_respond_Ret in Hres
    as (dispatch & toolResults & post & Htr & Hall & Hlen & Hcase).
  simpl in Htr.
  apply Run_input_Ret in Hin
    as [(Htake & Hr & ->)|(Htake & input & err & w1 & _ & Hin)].
  - inversion Hr; subst messages1.
    exists [], (messages st), response, dispatch, toolResults, post.
    split; [left; auto|]. rewrite Htr, <- !app_assoc. simpl. auto.
  - destruct err as [e|]; destruct Hin as (Hr & ->); [discriminate|].
    inversion Hr; subst messages1.
    eexists _, _, response, dispatch, toolResults, post.
    split; [right; split; [assumption|]; exists input; split; reflexivity|].
    rewrite Htr. simpl. rewrite <- !app_assoc. simpl. auto.
Qed.

(** How an iteration begins: with the read when input is due, with the
    model call otherwise; in the second case neither a read nor another
    model call follows within the iteration. *)
Lemma Run_body_starts a tools_ st σ :
  exists evs,
    trace (final (Run_body a tools_ st σ)) =
      trace σ ++ (if takeInput st then CallReadInput
                  else CallMessagesNew (Infer_params (messages st) tools_)) :: evs
    /\ (takeInput st = false -> Forall respond_event evs).
Proof.
  assert (Hrest : forall messages1,
            logs (Ext:=Ext) respond_event
              (bind (bind (extern (client a (Infer_params messages1 tools_)))
                          (fun r => match r with
                                    | inr err => ret (inr err)
                                    | inl response => ret (inl response)
                                    end))
                    (fun r => match r with
                              | inr err => ret (inr ("", err))
                              | inl response =>
                                  bind (Run_respond a messages1 response)
                                       (fun st' => ret (inl st'))
                              end))).
  { intros messages1. apply logs_bind.
    - apply logs_bind; [auto with logs|]. intros [response|err]; auto with logs.
    - intros [response|err]; [|auto with logs].
      apply logs_bind; [apply logs_Run_respond|]. auto with logs. }
  unfold Run_body, Run_input. destruct (takeInput st).
  - rewrite bind_assoc. unfold bind at 1. simpl.
    match goal with
    | |- context [final (?m ?s)] =>
        assert (Hm : logs (fun _ => True) m); [|destruct (Hm s) as (evs & Htr & _)]
    end.
    { apply logs_bind.
      - apply logs_bind; [auto with logs|]. intros [input [e|]]; [auto with logs|].
        apply logs_bind; [now apply logs_append_turn|]. auto with logs.
      - intros [messages1|out]; [|auto with logs].
        unfold Infer.
        apply logs_bind.
        + apply logs_bind; [now apply logs_emit|]. intros _.
          apply logs_bind; [auto with logs|]. intros [response|err]; auto with logs.
        + intros [response|err]; [|auto with logs].
          apply logs_bind; [|auto with logs].
          eapply logs_weaken; [|apply logs_Run_respond]. auto. }
    exists evs. simpl in Htr. rewrite Htr, <- app_assoc. split; [reflexivity|discriminate].
  - unfold bind at 1. simpl. unfold Infer. rewrite bind_assoc.
    unfold bind at 1. simpl.
    destruct (Hrest (messages st)
                {| world := world σ; sched := sched σ;
                   trace := trace σ ++
                     [CallMessagesNew (Infer_params (messages st) tools_)] |})
      as (evs & Htr & Hall).
    exists evs. simpl in Htr. rewrite Htr, <- app_assoc. auto.
Qed.

(** C4: the loop reads input again exactly when the iteration before
    emitted output.  An iteration that goes round either fed back a
    non-empty list of tool results (it ends by appending that turn and
    clears [takeInput]) or had none and emitted (it ends with the write and
    sets [takeInput]).  The next iteration then starts with the model call
    on the transcript as it stands, with no read and no second model call
    in it, in the first case, and with the read in the second. *)
Theorem takeInput_tracks_emission a tools_ st σ st' σ' :
  Run_body a tools_ st σ = Ret (inl st') σ' ->
  (exists response toolResults,
      length toolResults = length (tool_requests response)
      /\ (toolResults <> []
          /\ takeInput st' = false
          /\ last (messages st') = Some (anthropic.NewUserMessage toolResults)
          /\ last (trace σ') = Some (Append (anthropic.NewUserMessage toolResults))
          \/ toolResults = []
          /\ takeInput st' = true
          /\ last (messages st') = Some (anthropic.ToParam response)
          /\ exists c,
               head (anthropic.Content response) = Some c
               /\ last (trace σ') = Some (CallWriteOutput (anthropic.Text c))))
  /\ (exists evs,
        trace (final (Run_body a tools_ st' σ')) =
          trace σ' ++ (if takeInput st' then CallReadInput
                       else CallMessagesNew (Infer_params (messages st') tools_)) :: evs
        /\ (takeInput st' = false -> Forall respond_event evs)).
Proof.
  intros Hbody. split; [|apply Run_body_starts].
  apply Run_body_Ret_inl in Hbody
    as (pre & messages1 & response & dispatch & toolResults & post
        & _ & Htr & _ & Hlen & Hcase).
  exists response, toolResults. split; [assumption|].
  assert (Hlast : forall ev, post = [ev] -> last (trace σ') = Some ev).
  { intros ev ->. rewrite Htr. apply last_Some.
    eexists (trace σ ++ pre ++ _ :: _ :: dispatch).
    now rewrite <- !app_assoc. }
  destruct Hcase as [(-> & c & rest & Hcontent & Hpost & ->)|(Hsome & Hpost & ->)].
  - right. simpl. repeat (split; [reflexivity|]).
    split; [apply last_snoc|].
    exists c. rewrite Hcontent. split; [reflexivity|]. now apply Hlast.
  - left. simpl. split; [assumption|]. split; [reflexivity|].
    split; [|now apply Hlast].
    change [anthropic.ToParam response; anthropic.NewUserMessage toolResults]
      with ([anthropic.ToParam response] ++ [anthropic.NewUserMessage toolResults]).
    rewrite app_assoc. apply last_snoc.
Qed.

(** ** The transcript *)

Lemma appended_app (evs1 evs2 : list Event) :
  appended (evs1 ++ evs2) = appended evs1 ++ appended evs2.
Proof. apply omap_app. Qed.

Lemma appended_dispatch (evs : list Event) :
  Forall dispatch_event evs -> appended evs = [].
Proof.
  induction 1 as [|ev evs Hev _ IH]; [reflexivity|].
  destruct ev; simpl in *; try contradiction; exact IH.
Qed.

(** The record of an iteration that goes round: what came before the
    response turn holds no dispatcher entry, what lies between that turn
    and the closing entry holds nothing else. *)
Lemma Run_body_shape a tools_ st σ st' σ' :
  Run_body a tools_ st σ = Ret (inl st') σ' ->
  exists pre response dispatch post,
    trace σ' = trace σ ++ pre ++ Append (anthropic.ToParam response) :: dispatch ++ post
    /\ Forall (fun ev => ~ dispatch_event ev) pre
    /\ Forall dispatch_event dispatch
    /\ ((exists text,
            post = [CallWriteOutput text]
            /\ messages st' = messages st ++ appended pre ++ [anthropic.ToParam response])
        \/ (exists toolResults,
              length toolResults = length (tool_requests response)
              /\ post = [Append (anthropic.NewUserMessage toolResults)]
              /\ messages st' =
                   messages st ++ appended pre
                     ++ [anthropic.ToParam response;
                         anthropic.NewUserMessage toolResults])).
Proof.
  intros Hbody.
  apply Run_body_Ret_inl in Hbody
    as (pre & messages1 & response & dispatch & toolResults & post
        & Harr & Htr & Hall & Hlen & Hcase).
  exists (pre ++ [CallMessagesNew (Infer_params messages1 tools_)]),
    response, dispatch, post.
  assert (Hmsgs : messages1 =
            messages st ++ appended (pre ++ [CallMessagesNew (Infer_params messages1 tools_)])
          /\ Forall (fun ev => ~ dispatch_event ev) pre).
  { destruct Harr as [(_ & -> & ->)|(_ & input & -> & ->)]; simpl.
    - rewrite app_nil_r. split; [reflexivity|constructor].
    - split; [reflexivity|]. repeat constructor; simpl; tauto. }
  destruct Hmsgs as (Hmsgs & Hpre).
  split; [rewrite Htr, <- !app_assoc; reflexivity|].
  split; [apply Forall_app; split; [assumption|repeat constructor; simpl; tauto]|].
  split; [assumption|].
  destruct Hcase as [(-> & c & rest & _ & -> & ->)|(_ & -> & ->)]; simpl.
  - left. exists (anthropic.Text c). split; [reflexivity|].
    rewrite Hmsgs at 1. now rewrite <- app_assoc.
  - right. exists toolResults. split; [assumption|]. split; [reflexivity|].
    rewrite Hmsgs at 1. now rewrite <- app_assoc.
Qed.

Lemma Run_body_appends a tools_ st σ st' σ' :
  Run_body a tools_ st σ = Ret (inl st') σ' ->
  exists evs, trace σ' = trace σ ++ evs /\ messages st' = messages st ++ appended evs.
Proof.
  intros Hbody.
  apply Run_body_shape in Hbody
    as (pre & response & dispatch & post & Htr & _ & Hall & Hcase).
  exists (pre ++ Append (anthropic.ToParam response) :: dispatch ++ post).
  split; [assumption|].
  rewrite appended_app. simpl. rewrite appended_app, (appended_dispatch _ Hall). simpl.
  destruct Hcase as [(text & -> & ->)|(toolResults & _ & -> & ->)]; reflexivity.
Qed.

Lemma Run_loop_appends a tools_ (n : nat) :
  forall st σ st' σ',
    Run_loop n a tools_ st σ = Ret (inl st') σ' ->
    exists evs, trace σ' = trace σ ++ evs /\ messages st' = messages st ++ appended evs.
Proof.
  induction n as [|n IH]; intros st σ st' σ' Hloop.
  - inversion Hloop. exists []. now rewrite !app_nil_r.
  - simpl in Hloop. apply bind_Ret_inv in Hloop as (r & σ1 & Hbody & Hloop).
    destruct r as [st1|out]; [|discriminate].
    apply Run_body_appends in Hbody as (evs1 & Htr1 & Hm1).
    apply IH in Hloop as (evs2 & Htr2 & Hm2).
    exists (evs1 ++ evs2).
    rewrite Htr2, Htr1, Hm2, Hm1, appended_app, <- !app_assoc. auto.
Qed.

(** The model call of an iteration that goes round, and what is done
    with its reply. *)
Lemma Run_body_Ret_reply a tools_ st σ st' σ' :
  Run_body a tools_ st σ = Ret (inl st') σ' ->
  exists messages1 σ1 response w2,
    Run_input a st σ = Ret (inl messages1) σ1
    /\ client a (Infer_params messages1 tools_) (world σ1) = Ret (inl response) w2
    /\ Run_respond a messages1 response
         {| world := w2; sched := sched σ1;
            trace := trace σ1 ++ [CallMessagesNew (Infer_params messages1 tools_)] |}
       = Ret st' σ'.
Proof.
  unfold Run_body. intros H.
  apply bind_Ret_inv in H as (r & σ1 & Hin & H).
  destruct r as [messages1|out]; [|discriminate].
  apply bind_Ret_inv in H as (r & σ2 & Hinf & H).
  destruct r as [response|err]; [|discriminate].
  apply bind_Ret_inv in H as (st1 & σ3 & Hres & H).
  inversion H; subst st1 σ3; clear H.
  apply Infer_Ret in Hinf as (w2 & Hcl & ->).
  now exists messages1, σ1, response, w2.
Qed.

(** C8: the transcript only grows.  Over any number of iterations the new
    transcript is the old one followed by the turns appended meanwhile, so
    no earlier turn is changed or dropped.  Within an iteration the turn
    appended after the model call is the reply the model gave to that
    call, made on the transcript as it stood; it is appended before the
    first dispatcher entry, only dispatcher entries lie between it and the
    closing entry, and when tool results are fed back their turn is the
    very next one of the transcript. *)
Theorem transcript_is_append_only a tools_ :
  (forall (n : nat) st σ st' σ',
      Run_loop n a tools_ st σ = Ret (inl st') σ' ->
      messages st `prefix_of` messages st'
      /\ exists evs,
           trace σ' = trace σ ++ evs /\ messages st' = messages st ++ appended evs)
  /\ (forall st σ st' σ',
        Run_body a tools_ st σ = Ret (inl st') σ' ->
        exists pre response dispatch post,
          trace σ' = trace σ ++ pre
            ++ Append (anthropic.ToParam response) :: dispatch ++ post
          /\ Forall (fun ev => ~ dispatch_event ev) pre
          /\ Forall dispatch_event dispatch
          /\ ((exists text,
                  post = [CallWriteOutput text]
                  /\ messages st' =
                       messages st ++ appended pre ++ [anthropic.ToParam response])
              \/ (exists toolResults,
                    length toolResults = length (tool_requests response)
                    /\ post = [Append (anthropic.NewUserMessage toolResults)]
                    /\ messages st' =
                         messages st ++ appended pre
                           ++ [anthropic.ToParam response;
                               anthropic.NewUserMessage toolResults]))
          /\ exists messages1 σ1 w2,
               Run_input a st σ = Ret (inl messages1) σ1
               /\ messages1 = messages st ++ appended pre
               /\ trace σ ++ pre =
                    trace σ1 ++ [CallMessagesNew (Infer_params messages1 tools_)]
               /\ client a (Infer_params messages1 tools_) (world σ1)
                    = Ret (inl response) w2
               /\ Run_respond a messages1 response
                    {| world := w2; sched := sched σ1; trace := trace σ ++ pre |}
                  = Ret st' σ').
Proof.
  split.
  - intros n st σ st' σ' Hloop.
    destruct (Run_loop_appends _ _ _ _ _ _ _ Hloop) as (evs & Htr & Hm).
    split; [rewrite Hm; now apply prefix_app_r|eauto].
  - intros st σ st' σ' Hbody.
    apply Run_body_Ret_reply in Hbody
      as (messages1 & σ1 & response & w2 & Hin & Hcl & Hres).
    assert (Harr : exists pre,
               trace σ ++ pre =
                 trace σ1 ++ [CallMessagesNew (Infer_params messages1 tools_)]
               /\ messages1 = messages st ++ appended pre
               /\ Forall (fun ev => ~ dispatch_event ev) pre).
    { pose proof Hin as Hin'.
      apply Run_input_Ret in Hin'
        as [(_ & Hr & ->)|(_ & input & err & w1 & _ & Hcase)].
      - inversion Hr; subst messages1.
        exists [CallMessagesNew (Infer_params (messages st) tools_)].
        simpl. rewrite app_nil_r.
        split; [reflexivity|]. split; [reflexivity|].
        repeat constructor; simpl; tauto.
      - destruct err as [e|]; destruct Hcase as (Hr & ->); [discriminate|].
        inversion Hr; subst messages1.
        eexists [CallReadInput; Append _; CallMessagesNew _].
        simpl. rewrite <- app_assoc.
        split; [reflexivity|]. split; [reflexivity|].
        repeat constructor; simpl; tauto. }
    destruct Harr as (pre & Hpre & Hm1 & Hnone).
    rewrite <- Hpre in Hres.
    pose proof Hres as Hres'.
    apply Run_respond_Ret in Hres'
      as (dispatch & toolResults & post & Htr & Hall & Hlen & Hcase).
    simpl in Htr.
    exists pre, response, dispatch, post.
    split; [rewrite Htr, <- app_assoc; reflexivity|].
    split; [exact Hnone|]. split; [exact Hall|]. split.
    + destruct Hcase as [(-> & c & rest & _ & -> & ->)|(_ & -> & ->)]; simpl.
      * left. exists (anthropic.Text c). split; [reflexivity|].
        rewrite Hm1 at 1. now rewrite <- app_assoc.
      * right. exists toolResults. split; [assumption|]. split; [reflexivity|].
        rewrite Hm1 at 1. now rewrite <- app_assoc.
    + exists messages1, σ1, w2. auto.
Qed.

(** ** A failing tool *)

(** C1: for a model turn with one or more tool requests, whenever the
    loop feeds a turn back, its results answer a rearrangement of the
    turn's requests, one result per request: as many results as requests,
    the same identifiers with the same multiplicities, hence none twice
    when the requests' identifiers are distinct.  The turn is fed back for
    sure when every registered tool function returns.  And whatever
    [ExecuteTool] returns is a tool result carrying the identifier it was
    called with. *)
Theorem tool_results_match_requests a messages_ response σ :
  tool_requests response <> [] ->
  (forall st' σ',
      Run_respond a messages_ response σ = Ret st' σ' ->
      exists toolResults order,
        st' = {| takeInput := false;
                 messages := messages_ ++ [anthropic.ToParam response;
                                           anthropic.NewUserMessage toolResults] |}
        /\ order ≡ₚ tool_requests response
        /\ Forall2 answers toolResults order
        /\ length toolResults = length (tool_requests response)
        /\ map result_id toolResults
             ≡ₚ map (fun g => Some (toolID g)) (tool_requests response)
        /\ (NoDup (map toolID (tool_requests response)) ->
            NoDup (map result_id toolResults)))
  /\ (responsive a -> exists st' σ', Run_respond a messages_ response σ = Ret st' σ')
  /\ (forall (toolID_ toolName_ : string) (toolInput_ : RawMessage) σ0 r σ1,
        ExecuteTool a toolID_ toolName_ toolInput_ σ0 = Ret r σ1 ->
        exists content isError, r = anthropic.OfToolResult toolID_ content isError).
Proof.
  intros Hsome. split; [|split].
  - intros st' σ' Hrun.
    apply Run_respond_Ret_requests in Hrun
      as (toolResults & order & -> & Hperm & Hexec); [|assumption].
    assert (Hans : Forall2 answers toolResults order).
    { eapply Forall2_impl; [exact Hexec|]. intros r g. apply executed_answers. }
    assert (Hids : map result_id toolResults
                     ≡ₚ map (fun g => Some (toolID g)) (tool_requests response)).
    { rewrite (answers_result_ids _ _ Hans). now apply Permutation_map. }
    exists toolResults, order. repeat split; try assumption.
    + rewrite (Forall2_length _ _ _ Hans). now apply Permutation_length.
    + intros Hnodup. rewrite Hids.
      change (map (fun g => Some (toolID g)) (tool_requests response))
        with (Some ∘ toolID <$> tool_requests response).
      rewrite list_fmap_compose. apply (NoDup_fmap_2 _). exact Hnodup.
  - intros Hresp.
    destruct (Run_respond_requests a messages_ response σ Hresp Hsome)
      as (toolResults & order & σ' & Hrun & _).
    eauto.
  - intros toolID_ toolName_ toolInput_ σ0 r σ1. apply ExecuteTool_Ret.
Qed.

(** ** A failing tool *)


(** ** Reads and writes *)

Lemma count_app (p : Event -> bool) (evs1 evs2 : list Event) :
  count p (evs1 ++ evs2) = count p evs1 + count p evs2.
Proof. induction evs1 as [|ev evs1 IH]; simpl; [reflexivity|]. rewrite IH. lia. Qed.

Lemma count_dispatch (p : Event -> bool) (evs : list Event) :
  (forall ev, dispatch_event ev -> p ev = false) ->
  Forall dispatch_event evs -> count p evs = 0.
Proof.
  intros Hp. induction 1 as [|ev evs Hev _ IH]; simpl; [reflexivity|].
  now rewrite (Hp _ Hev), IH.
Qed.

(** Every read is answered by one write before the next read: over an
    iteration, and so over any number of them, reads and writes differ by
    the cycles open at either end. *)
Lemma Run_body_balance a tools_ st σ st' σ' :
  Run_body a tools_ st σ = Ret (inl st') σ' ->
  exists evs,
    trace σ' = trace σ ++ evs
    /\ count is_read evs + open_cycle st = count is_write evs + open_cycle st'.
Proof.
  intros Hbody.
  apply Run_body_Ret_inl in Hbody
    as (pre & messages1 & response & dispatch & toolResults & post
        & Harr & Htr & Hall & _ & Hcase).
  eexists. split; [exact Htr|].
  rewrite !count_app. simpl. rewrite !count_app.
  rewrite (count_dispatch is_read dispatch), (count_dispatch is_write dispatch);
    try assumption; try (now intros []).
  unfold open_cycle.
  destruct Harr as [(-> & -> & _)|(-> & input & -> & _)];
    destruct Hcase as [(_ & c & rest & _ & -> & ->)|(_ & -> & ->)];
    reflexivity.
Qed.

Lemma Run_loop_balance a tools_ (n : nat) :
  forall st σ st' σ',
    Run_loop n a tools_ st σ = Ret (inl st') σ' ->
    exists evs,
      trace σ' = trace σ ++ evs
      /\ count is_read evs + open_cycle st = count is_write evs + open_cycle st'.
Proof.
  induction n as [|n IH]; intros st σ st' σ' Hloop.
  - inversion Hloop. exists []. now rewrite app_nil_r.
  - simpl in Hloop. apply bind_Ret_inv in Hloop as (r & σ1 & Hbody & Hloop).
    destruct r as [st1|out]; [|discriminate].
    apply Run_body_balance in Hbody as (evs1 & Htr1 & Hb1).
    apply IH in Hloop as (evs2 & Htr2 & Hb2).
    exists (evs1 ++ evs2). rewrite Htr2, Htr1, <- app_assoc, !count_app.
    split; [reflexivity|lia].
Qed.

(** ** The network transport *)

(** The three slots hold one item each, and no send overfills a slot. *)
Lemma NewAgent_world_slots (e : Ext) :
  chan.cap (requestChan (NewAgent_world e)) = 1
  /\ chan.cap (responseChan (NewAgent_world e)) = 1
  /\ chan.cap (doneChan (NewAgent_world e)) = 1.
Proof. now repeat split. Qed.

Lemma chan_send_within_cap {A : Type} (v : A) (c c' : chan.t A) :
  chan.send v c = Some c' ->
  chan.cap c' = chan.cap c /\ length (chan.buf c') <= chan.cap c'.
Proof.
  unfold chan.send. destruct (Nat.ltb_spec (length (chan.buf c)) (chan.cap c));
    [|discriminate].
  intros H'. inversion H'. simpl. rewrite length_app. simpl. lia.
Qed.

Lemma chan_recv_within_cap {A : Type} (v : A) (c c' : chan.t A) :
  length (chan.buf c) <= chan.cap c ->
  chan.recv c = Some (v, c') ->
  chan.cap c' = chan.cap c /\ length (chan.buf c') <= chan.cap c'.
Proof.
  unfold chan.recv. destruct (chan.buf c) as [|x rest]; [discriminate|].
  intros Hle H'. inversion H'. simpl in *. lia.
Qed.

Lemma chan_recv_Ret {A : Type} (get : World Ext -> chan.t A)
    (set : chan.t A -> World Ext -> World Ext) w (v : A) (rest : list A) :
  chan.buf (get w) = v :: rest ->
  chan_recv get set w = Ret v (set (chan.Chan (chan.cap (get w)) rest) w).
Proof. intros Hbuf. unfold chan_recv, chan.recv. now rewrite Hbuf. Qed.

Lemma chan_send_Ret {A : Type} (get : World Ext -> chan.t A)
    (set : chan.t A -> World Ext -> World Ext) w (v : A) :
  length (chan.buf (get w)) < chan.cap (get w) ->
  chan_send get set v w =
    Ret tt (set (chan.Chan (chan.cap (get w)) (chan.buf (get w) ++ [v])) w).
Proof.
  intros Hroom. unfold chan_send, chan.send.
  now rewrite (proj2 (Nat.ltb_lt _ _) Hroom).
Qed.

Lemma on_response_Ret {A : Type} (h : http.ResponseWriter)
    (method : http.Response -> A * http.Response) w (r : http.Response) :
  conns w !! h = Some r ->
  on_response h method w =
    Ret (method r).1 (set_conns (<[h := (method r).2]> (conns w)) w).
Proof. intros Hr. unfold on_response. rewrite Hr. now destruct (method r). Qed.

(** What [writeToNetwork] does when a writer is waiting in the response
    slot and the completion slot has room. *)
Lemma writeToNetwork_Ret w (message : string) (h : http.ResponseWriter)
    (pending : list http.ResponseWriter) (r : http.Response) :
  chan.buf (responseChan w) = h :: pending ->
  conns w !! h = Some r ->
  length (chan.buf (doneChan w)) < chan.cap (doneChan w) ->
  let served :=
    http.Write message
      (http.WriteHeader http.StatusOK (http.Header_Set "Content-Type" "text/plain" r)) in
  writeToNetwork message w =
    Ret served.1
        {| requestChan := requestChan w;
           responseChan := chan.Chan (chan.cap (responseChan w)) pending;
           doneChan := chan.Chan (chan.cap (doneChan w)) (chan.buf (doneChan w) ++ [true]);
           conns := <[h := served.2]> (conns w);
           ext := ext w |}.
Proof.
  intros Hbuf Hr Hroom served. unfold writeToNetwork.
  rewrite (bind_Ret _ _ _ _ _ (chan_recv_Ret _ _ _ _ _ Hbuf)). cbv beta.
  rewrite (bind_Ret _ _ _ _ _
             (on_response_Ret h _ (set_responseChan _ w) r Hr)). simpl.
  do 2 (match goal with
        | |- context [bind (on_response h ?m) ?k ?s] =>
            rewrite (bind_Ret _ k s _ _
                       (on_response_Ret h m s _ (lookup_insert_eq _ _ _)))
        end; simpl).
  match goal with
  | |- context [bind (chan_send doneChan set_doneChan true) ?k ?s] =>
      rewrite (bind_Ret _ k s _ _ (chan_send_Ret doneChan set_doneChan s true Hroom))
  end.
  unfold ret, set_doneChan, set_conns, set_responseChan. simpl.
  now rewrite !insert_insert_eq.
Qed.

Lemma chan_send_Block {A : Type} (get : World Ext -> chan.t A)
    (set : chan.t A -> World Ext -> World Ext) w (v : A) :
  chan.cap (get w) <= length (chan.buf (get w)) ->
  chan_send get set v w = Block w.
Proof.
  intros Hfull. unfold chan_send, chan.send.
  destruct (Nat.ltb_spec (length (chan.buf (get w))) (chan.cap (get w))); [lia|reflexivity].
Qed.

(** What [writeToNetwork] does when a writer is waiting in the response
    slot and the completion slot is full: it parks on the send, with the
    response already written. *)
Lemma writeToNetwork_Block w (message : string) (h : http.ResponseWriter)
    (pending : list http.ResponseWriter) (r : http.Response) :
  chan.buf (responseChan w) = h :: pending ->
  conns w !! h = Some r ->
  chan.cap (doneChan w) <= length (chan.buf (doneChan w)) ->
  let served :=
    http.Write message
      (http.WriteHeader http.StatusOK (http.Header_Set "Content-Type" "text/plain" r)) in
  writeToNetwork message w =
    Block {| requestChan := requestChan w;
             responseChan := chan.Chan (chan.cap (responseChan w)) pending;
             doneChan := doneChan w;
             conns := <[h := served.2]> (conns w);
             ext := ext w |}.
Proof.
  intros Hbuf Hr Hfull served. unfold writeToNetwork.
  rewrite (bind_Ret _ _ _ _ _ (chan_recv_Ret _ _ _ _ _ Hbuf)). cbv beta.
  rewrite (bind_Ret _ _ _ _ _
             (on_response_Ret h _ (set_responseChan _ w) r Hr)). simpl.
  do 2 (match goal with
        | |- context [bind (on_response h ?m) ?k ?s] =>
            rewrite (bind_Ret _ k s _ _
                       (on_response_Ret h m s _ (lookup_insert_eq _ _ _)))
        end; simpl).
  match goal with
  | |- context [bind (chan_send doneChan set_doneChan true) ?k ?s] =>
      rewrite (bind_Block _ k s _ (chan_send_Block doneChan set_doneChan s true Hfull))
  end.
  unfold set_conns, set_responseChan. simpl.
  now rewrite !insert_insert_eq.
Qed.


(** ** Two requests at once *)

(** C9: two requests at once can be answered crosswise.  [handleRequest]
    hands over a request and its writer with two separate sends.  From the
    channels as [NewAgent] makes them, let handler A send its request and
    the loop take it; before A has sent its writer, handler B sends its
    request and its writer.  None of these steps has to wait.  The loop's
    next [writeToNetwork], the reply to A's request, is then written on
    B's connection, and B's handler takes the signal and returns with it.
    A's handler goes on to send its writer, the loop reads B's request,
    and the reply to B is written on A's connection.  At the end the
    channels are empty again and each caller holds the other's answer. *)
Theorem answers_can_cross w (hA hB : http.ResponseWriter) (rA rB : http.Request)
    (bodyA bodyB : string) (respA respB : http.Response) (replyA replyB : string) :
  http.Method rA = "POST" -> http.Method rB = "POST" ->
  http.Body rA = (bodyA, None) -> http.Body rB = (bodyB, None) ->
  hA <> hB ->
  conns w !! hA = Some respA -> conns w !! hB = Some respB ->
  requestChan w = chan.make 1 -> responseChan w = chan.make 1 ->
  doneChan w = chan.make 1 ->
  let served (resp : http.Response) (message : string) :=
    http.Write message
      (http.WriteHeader http.StatusOK (http.Header_Set "Content-Type" "text/plain" resp)) in
  handleRequest (Ext:=Ext) hA rA =
    (handleRequest_offer rA;; handleRequest_store hA;; handleRequest_wait)
  /\ handleRequest (Ext:=Ext) hB rB =
       (handleRequest_offer rB;; handleRequest_store hB;; handleRequest_wait)
  /\ exists w1 w2 w3 w4 w5 w6 w7 w8 w9 w10,
       handleRequest_offer rA w = Ret tt w1
       /\ readFromNetwork w1 = Ret (bodyA, None) w2
       /\ handleRequest_offer rB w2 = Ret tt w3
       /\ handleRequest_store hB w3 = Ret tt w4
       /\ writeToNetwork replyA w4 = Ret (served respB replyA).1 w5
       /\ handleRequest_wait w5 = Ret tt w6
       /\ conns w6 !! hB = Some (served respB replyA).2
       /\ conns w6 !! hA = Some respA
       /\ handleRequest_store hA w6 = Ret tt w7
       /\ readFromNetwork w7 = Ret (bodyB, None) w8
       /\ writeToNetwork replyB w8 = Ret (served respA replyB).1 w9
       /\ handleRequest_wait w9 = Ret tt w10
       /\ conns w10 !! hA = Some (served respA replyB).2
       /\ conns w10 !! hB = Some (served respB replyA).2
       /\ requestChan w10 = chan.make 1
       /\ responseChan w10 = chan.make 1
       /\ doneChan w10 = chan.make 1.
Proof.
  destruct w as [rc sc dc cs e]. simpl.
  intros HpostA HpostB HbodyA HbodyB Hne HconnA HconnB -> -> ->.
  split; [unfold handleRequest; now rewrite HpostA|].
  split; [unfold handleRequest; now rewrite HpostB|].
  eexists _, _, _, _, _, _, _, _, _, _.
  split; [reflexivity|].
  split; [unfold readFromNetwork, bind, chan_recv, chan.recv; simpl;
          rewrite HbodyA; reflexivity|].
  split; [reflexivity|]. split; [reflexivity|].
  split; [rewrite (writeToNetwork_Ret _ replyA hB [] respB); simpl;
          [reflexivity|reflexivity|exact HconnB|lia]|].
  split; [reflexivity|].
  split; [simpl; apply lookup_insert_eq|].
  split; [simpl; rewrite lookup_insert_ne by congruence; exact HconnA|].
  split; [reflexivity|].
  split; [unfold readFromNetwork, bind, chan_recv, chan.recv; simpl;
          rewrite HbodyB; reflexivity|].
  split; [rewrite (writeToNetwork_Ret _ replyB hA [] respA); simpl;
          [reflexivity|reflexivity
          |rewrite lookup_insert_ne by congruence; exact HconnA|lia]|].
  split; [reflexivity|].
  split; [simpl; apply lookup_insert_eq|].
  split; [simpl; rewrite lookup_insert_ne by congruence; apply lookup_insert_eq|].
  split; [reflexivity|]. split; reflexivity.
Qed.

End Facts.

(** * The statements at work on the scripted environment *)

Section Instances.

Import Scenario.

Lemma cli_responsive : responsive cli.
Proof.
  unfold responsive, cli, NewAgent, CoderTools. simpl.
  repeat (apply List.Forall_cons; [intros input w; eexists _, _; reflexivity|]).
  apply List.Forall_nil.
Defined.

(** Two requests, let through in the order 2, 1: both are answered. *)
Lemma tool_results_match_requests_witness :
  tool_requests two_tools <> []
  /\ exists toolResults σ',
       Run_respond cli [] two_tools session =
         Ret {| takeInput := false;
                messages := [] ++ [anthropic.ToParam two_tools;
                                   anthropic.NewUserMessage toolResults] |} σ'
       /\ map result_id toolResults ≡ₚ [Some "toolu_1"; Some "toolu_2"].
Proof.
  assert (Hsome : tool_requests two_tools <> []) by (vm_compute; discriminate).
  split; [exact Hsome|].
  destruct (tool_results_match_requests cli [] two_tools session Hsome)
    as (Hmatch & Hreturns & _).
  destruct (Hreturns cli_responsive) as (st' & σ' & Hrun).
  destruct (Hmatch st' σ' Hrun) as (toolResults & order & -> & _ & _ & _ & Hids & _).
  exists toolResults, σ'. split; [exact Hrun|exact Hids].
Defined.

(** Only "first" is written. *)
Lemma zero_tool_turn_is_emitted_witness :
  tool_requests two_texts = []
  /\ trace (final (Run_respond cli [] two_texts session)) =
       [Append (anthropic.ToParam two_texts); CallWriteOutput "first"].
Proof.
  assert (Hnone : tool_requests two_texts = []) by reflexivity.
  split; [exact Hnone|].
  exact (proj1 (zero_tool_turn_is_emitted cli [] two_texts session Hnone)).
Defined.

(** A first block that is not text: the empty string is written. *)
Example first_block_without_text :
  trace (final (Run_respond cli [] thought_first session)) =
    [Append (anthropic.ToParam thought_first); CallWriteOutput ""].
Proof. reflexivity. Qed.

(** An unregistered tool name. *)
Lemma ExecuteTool_unknown_tool_witness :
  ("delete_everything" ∉ map Name (tools cli))
  /\ ExecuteTool cli "toolu_9" "delete_everything" "{}" session =
       Ret (anthropic.OfToolResult "toolu_9" "Tool not found" true)
           {| world := world session; sched := sched session;
              trace := [CallExecuteTool "toolu_9" "delete_everything" "{}"] |}.
Proof.
  assert (Hunknown : "delete_everything" ∉ map Name (tools cli)).
  { apply (bool_decide_unpack _). vm_compute. exact I. }
  split; [exact Hunknown|].
  exact (ExecuteTool_unknown_tool cli "toolu_9" "delete_everything" "{}" session Hunknown).
Defined.

(** The first iteration of the session feeds tool results back; the second
    starts with the model call. *)
Lemma takeInput_tracks_emission_witness :
  exists st' σ',
    Run_body cli (anthropicTools cli) init session = Ret (inl st') σ'
    /\ exists evs,
         trace (final (Run_body cli (anthropicTools cli) st' σ')) =
           trace σ' ++ (if takeInput st' then CallReadInput
                        else CallMessagesNew
                               (Infer_params (messages st') (anthropicTools cli))) :: evs
         /\ (takeInput st' = false -> Forall respond_event evs).
Proof.
  assert (Hbody : exists st' σ',
             Run_body cli (anthropicTools cli) init session = Ret (inl st') σ')
    by (vm_compute; eauto).
  destruct Hbody as (st' & σ' & Hbody).
  exists st', σ'. split; [exact Hbody|].
  exact (proj2 (takeInput_tracks_emission cli _ _ _ _ _ Hbody)).
Defined.



(** End of input on the console; an overloaded model service. *)
Lemma read_and_model_errors_are_fatal_witness :
  (exists σ', Run 3 cli (boot (env [("", Some "EOF")] []) []) = Ret (inr ("", "EOF")) σ'
              /\ trace σ' = [CallReadInput])
  /\ (exists σ', Run 3 cli (boot (env [("hi", None)] [inr "529 overloaded"]) [])
                 = Ret (inr ("", "529 overloaded")) σ'
                 /\ last (trace σ') =
                      Some (CallMessagesNew
                              (Infer_params
                                 [anthropic.NewUserMessage [anthropic.NewTextBlock "hi"]]
                                 (anthropicTools cli)))).
Proof.
  split.
  - pose (σ0 := boot (env [("", Some "EOF")] []) []).
    destruct (read_and_model_errors_are_fatal cli 0 σ0 init σ0 eq_refl) as (Hread & _).
    eexists. split; [exact (Hread "" "EOF" _ eq_refl eq_refl 2)|reflexivity].
  - pose (σ0 := boot (env [("hi", None)] [inr "529 overloaded"]) []).
    destruct (read_and_model_errors_are_fatal cli 0 σ0 init σ0 eq_refl) as (_ & Hmodel).
    eexists. split; [exact (Hmodel _ _ "529 overloaded" _ eq_refl eq_refl 2)|reflexivity].
Defined.

(** The whole session: three turns appended in the first iteration, one in
    the second, the first three untouched; the turn the first iteration
    appends after its model call is the reply the service gave. *)
Lemma transcript_is_append_only_witness :
  exists st1 σ1 st2 σ2,
    Run_loop 1 cli (anthropicTools cli) init session = Ret (inl st1) σ1
    /\ Run_loop 1 cli (anthropicTools cli) st1 σ1 = Ret (inl st2) σ2
    /\ length (messages st1) = 3
    /\ messages st1 `prefix_of` messages st2
    /\ exists pre dispatch post,
         trace σ1 = trace session ++ pre
           ++ Append (anthropic.ToParam two_tools) :: dispatch ++ post.
Proof.
  assert (Hrun : exists st1 σ1 st2 σ2,
             Run_loop 1 cli (anthropicTools cli) init session = Ret (inl st1) σ1
             /\ Run_body cli (anthropicTools cli) init session = Ret (inl st1) σ1
             /\ Run_loop 1 cli (anthropicTools cli) st1 σ1 = Ret (inl st2) σ2
             /\ length (messages st1) = 3).
  { vm_compute. eexists _, _, _, _. repeat split. }
  destruct Hrun as (st1 & σ1 & st2 & σ2 & H1 & Hbody & H2 & Hlen).
  exists st1, σ1, st2, σ2. repeat (split; [assumption|]).
  split.
  - exact (proj1 (proj1 (transcript_is_append_only cli (anthropicTools cli)) 1 _ _ _ _ H2)).
  - destruct (proj2 (transcript_is_append_only cli (anthropicTools cli)) _ _ _ _ Hbody)
      as (pre & response & dispatch & post & Htr & _ & _ & _
          & messages1 & σa & w2 & Hin & _ & _ & Hcl & _).
    assert (Hin' : Run_input cli init session =
              Ret (inl [anthropic.NewUserMessage [anthropic.NewTextBlock "what is here?"]])
                  {| world := with_ext (fun e => {| stdin := []; stdout := stdout e;
                                                    service := service e; files := files e |})
                                (world session);
                     sched := sched session;
                     trace := [CallReadInput;
                               Append (anthropic.NewUserMessage
                                         [anthropic.NewTextBlock "what is here?"])] |})
      by reflexivity.
    rewrite Hin' in Hin. injection Hin as <- <-.
    assert (Hreply : response = two_tools).
    { cbv in Hcl. now injection Hcl as <- _. }
    subst response. now exists pre, dispatch, post.
Defined.

(** A model turn with no content at all. *)
Lemma emitting_indexes_first_segment_unguarded_witness :
  tool_requests (assistant []) = []
  /\ Run_respond cli [] (assistant []) session =
       Crash "index out of range [0] with length 0"
         {| world := world session; sched := sched session;
            trace := trace session ++ [Append (anthropic.ToParam (assistant []))] |}.
Proof.
  assert (Hnone : tool_requests (assistant []) = []) by reflexivity.
  split; [exact Hnone|].
  exact (proj1 (emitting_indexes_first_segment_unguarded cli [] (assistant []) session Hnone)
           eq_refl).
Defined.

(** Connections 7 and 8 post "first" and "second" at once: the reply to
    "first" is written on connection 8, while connection 7 has nothing
    yet. *)
Lemma answers_can_cross_witness :
  let w := Cases.two_accepted (env [] []) in
  exists w1 w2 w3 w4 w5 w6,
    handleRequest_offer (post "first") w = Ret tt w1
    /\ readFromNetwork w1 = Ret ("first", None) w2
    /\ handleRequest_offer (post "second") w2 = Ret tt w3
    /\ handleRequest_store 8 w3 = Ret tt w4
    /\ writeToNetwork "reply to first" w4 = Ret None w5
    /\ handleRequest_wait w5 = Ret tt w6
    /\ (http.Written <$> conns w6 !! 8) = Some "reply to first"
    /\ (http.Written <$> conns w6 !! 7) = Some "".
Proof.
  intros w.
  assert (Hne : 7 <> 8) by discriminate.
  destruct (answers_can_cross w 7 8 (post "first") (post "second") "first" "second"
              (http.fresh None) (http.fresh None) "reply to first" "reply to second"
              eq_refl eq_refl eq_refl eq_refl Hne eq_refl eq_refl eq_refl eq_refl eq_refl)
    as (_ & _ & w1 & w2 & w3 & w4 & w5 & w6 & w7 & w8 & w9 & w10
        & H1 & H2 & H3 & H4 & H5 & H6 & HB & HA & _).
  exists w1, w2, w3, w4, w5, w6.
  repeat (split; [assumption|]).
  split.
  - exact (eq_trans (f_equal (fmap http.Written) HB) eq_refl).
  - exact (eq_trans (f_equal (fmap http.Written) HA) eq_refl).
Defined.

End Instances.

(** * Further properties of the code *)

Section Transport.

Context {Ext : Type}.
Implicit Types (a : Agent Ext) (σ : Sys Ext) (w : World Ext) (st : Loop).

(** X1: one request-response cycle over the three slots.  From empty
    slots a POST handler leaves its request and its writer and parks on
    the completion slot; [readFromNetwork] then returns that request's
    body, [writeToNetwork] answers on that handler's writer, and the
    signal the handler takes is the only one: afterwards the world is the
    one before the request but for the response written. *)
Theorem handshake_cycle w (h : http.ResponseWriter) (r : http.Request)
    (body message : string) (resp : http.Response) :
  http.Method r = "POST" ->
  http.Body r = (body, None) ->
  chan.buf (requestChan w) = [] -> 0 < chan.cap (requestChan w) ->
  chan.buf (responseChan w) = [] -> 0 < chan.cap (responseChan w) ->
  chan.buf (doneChan w) = [] -> 0 < chan.cap (doneChan w) ->
  conns w !! h = Some resp ->
  let served :=
    http.Write message
      (http.WriteHeader http.StatusOK (http.Header_Set "Content-Type" "text/plain" resp)) in
  exists w1 w2 w3,
    handleRequest h r w = Block w1
    /\ readFromNetwork w1 = Ret (body, None) w2
    /\ writeToNetwork message w2 = Ret served.1 w3
    /\ chan_recv doneChan set_doneChan w3 =
         Ret true (set_conns (<[h := served.2]> (conns w)) w).
Proof.
  destruct w as [[rc rb] [sc sb] [dc db] cs e]. simpl.
  intros Hpost Hbody -> Hrc -> Hsc -> Hdc Hconn.
  destruct rc as [|rc]; [lia|]. destruct sc as [|sc]; [lia|].
  destruct dc as [|dc]; [lia|].
  eexists _, _, _. split; [|split; [|split]].
  - unfold handleRequest. rewrite Hpost. reflexivity.
  - unfold readFromNetwork, bind, chan_recv, chan.recv. simpl.
    rewrite Hbody. reflexivity.
  - rewrite (writeToNetwork_Ret _ message h [] resp); simpl;
      [reflexivity|reflexivity|exact Hconn|lia].
  - reflexivity.
Qed.

(** X2: a request that is not a POST is answered by its own handler with
    status 405 and the text "Method not allowed"; the handler returns
    without parking and the three slots are as before, so the loop never
    sees the request. *)
Theorem non_POST_is_turned_away w (h : http.ResponseWriter) (r : http.Request)
    (fault : option error) :
  http.Method r <> "POST" ->
  conns w !! h = Some (http.fresh fault) ->
  exists w' resp',
    handleRequest h r w = Ret tt w'
    /\ requestChan w' = requestChan w
    /\ responseChan w' = responseChan w
    /\ doneChan w' = doneChan w
    /\ conns w' !! h = Some resp'
    /\ http.Status resp' = Some http.StatusMethodNotAllowed
    /\ http.Written resp' =
         match fault with
         | Some _ => ""
         | None => "Method not allowed" +:+ String (Ascii.ascii_of_nat 10) ""
         end.
Proof.
  intros Hmethod Hconn. unfold handleRequest.
  destruct (String.eqb_spec (http.Method r) "POST") as [Heq|_]; [contradiction|].
  simpl. unfold http_Error.
  rewrite (bind_Ret _ _ _ _ _ (on_response_Ret h _ w _ Hconn)). simpl.
  do 2 (match goal with
        | |- context [bind (on_response h ?m) ?k ?s] =>
            rewrite (bind_Ret _ k s _ _
                       (on_response_Ret h m s _ (lookup_insert_eq _ _ _)))
        end; simpl).
  eexists _, _. split; [reflexivity|]. simpl.
  repeat (split; [reflexivity|]).
  split; [apply lookup_insert_eq|].
  destruct fault; split; reflexivity.
Qed.

(** X3: what a POST handler does is decided by the state of the slots
    alone.  With the request slot full it parks at once and changes
    nothing.  With the request slot free but a writer still waiting in the
    full response slot, it leaves its request and parks before its writer
    is in: the loop's next [writeToNetwork] answers on the writer that was
    waiting, and the late-comer's response is not touched.  With all three
    slots empty it leaves its request and its writer and parks on the
    completion slot, and the loop's next [writeToNetwork] answers on its
    connection and on no other; the slots are empty as well while the loop
    works on an earlier request whose handler has not sent its writer yet,
    so that request's reply goes to the late-comer. *)
Theorem late_handler_cases w (h1 h2 : http.ResponseWriter) (r2 : http.Request) :
  http.Method r2 = "POST" ->
  (length (chan.buf (requestChan w)) = chan.cap (requestChan w) ->
     handleRequest h2 r2 w = Block w)
  /\ (chan.buf (requestChan w) = [] ->
      0 < chan.cap (requestChan w) ->
      chan.buf (responseChan w) = [h1] ->
      chan.cap (responseChan w) = 1 ->
      let w1 := set_requestChan (chan.Chan (chan.cap (requestChan w)) [r2]) w in
      handleRequest h2 r2 w = Block w1
      /\ forall (message : string) (resp1 : http.Response),
           h1 <> h2 ->
           conns w !! h1 = Some resp1 ->
           length (chan.buf (doneChan w)) < chan.cap (doneChan w) ->
           exists err w',
             writeToNetwork message w1 = Ret err w'
             /\ conns w' !! h2 = conns w !! h2
             /\ chan.buf (responseChan w') = []
             /\ chan.buf (requestChan w') = [r2])
  /\ (chan.buf (requestChan w) = [] ->
      0 < chan.cap (requestChan w) ->
      chan.buf (responseChan w) = [] ->
      0 < chan.cap (responseChan w) ->
      chan.buf (doneChan w) = [] ->
      0 < chan.cap (doneChan w) ->
      let w1 :=
        set_responseChan (chan.Chan (chan.cap (responseChan w)) [h2])
          (set_requestChan (chan.Chan (chan.cap (requestChan w)) [r2]) w) in
      handleRequest h2 r2 w = Block w1
      /\ forall (message : string) (resp2 : http.Response),
           conns w !! h2 = Some resp2 ->
           let served :=
             http.Write message
               (http.WriteHeader http.StatusOK
                  (http.Header_Set "Content-Type" "text/plain" resp2)) in
           exists w',
             writeToNetwork message w1 = Ret served.1 w'
             /\ conns w' !! h2 = Some served.2
             /\ (h1 <> h2 -> conns w' !! h1 = conns w !! h1)
             /\ chan.buf (doneChan w') = [true]
             /\ chan.buf (requestChan w') = [r2]).
Proof.
  intros Hpost. split; [|split].
  - intros Hfull. unfold handleRequest. rewrite Hpost. simpl.
    unfold bind, chan_send, chan.send.
    rewrite Hfull, Nat.ltb_irrefl. reflexivity.
  - intros Hempty Hcap Hbuf Hone w1. split.
    + unfold handleRequest. rewrite Hpost. simpl.
      unfold bind, chan_send, chan.send. rewrite Hempty. simpl.
      rewrite (proj2 (Nat.ltb_lt _ _) Hcap). simpl.
      rewrite Hbuf, Hone. reflexivity.
    + intros message resp1 Hne Hconn Hroom.
      rewrite (writeToNetwork_Ret w1 message h1 [] resp1 Hbuf Hconn Hroom).
      eexists _, _. split; [reflexivity|]. simpl.
      split; [now apply lookup_insert_ne|]. split; reflexivity.
  - intros Hreq Hrc Hres Hsc Hdone Hdc w1. split.
    + unfold handleRequest. rewrite Hpost. simpl.
      unfold bind, chan_send, chan.send, chan_recv, chan.recv.
      rewrite Hreq. simpl. rewrite (proj2 (Nat.ltb_lt _ _) Hrc). simpl.
      rewrite Hres. simpl. rewrite (proj2 (Nat.ltb_lt _ _) Hsc). simpl.
      rewrite Hdone. reflexivity.
    + intros message resp2 Hconn served.
      assert (Hroom : length (chan.buf (doneChan w1)) < chan.cap (doneChan w1))
        by (simpl; rewrite Hdone; simpl; lia).
      rewrite (writeToNetwork_Ret w1 message h2 [] resp2 eq_refl Hconn Hroom).
      eexists. split; [reflexivity|]. simpl.
      split; [apply lookup_insert_eq|].
      split; [intros Hne; now apply lookup_insert_ne|].
      rewrite Hdone. split; reflexivity.
Qed.

(** X4: a request whose body cannot be read ends the loop and strands its
    caller.  With [readFromNetwork] as the agent's input, [Run] returns the
    read error wrapped as "failed to read request body: ..."; the request
    is gone from its slot, and the response slot, the completion slot and
    the connections are as they were: no signal is raised for the handler
    parked on it. *)
Theorem unreadable_body_strands_the_caller a tools_ st σ (req : http.Request)
    (rest : list http.Request) (b : string) (err : error) :
  readInput a = readFromNetwork ->
  takeInput st = true ->
  chan.buf (requestChan (world σ)) = req :: rest ->
  http.Body req = (b, Some err) ->
  forall n : nat,
    Run_loop (S n) a tools_ st σ =
      Ret (inr ("", "failed to read request body: " +:+ err))
          {| world := set_requestChan
                        (chan.Chan (chan.cap (requestChan (world σ))) rest) (world σ);
             sched := sched σ;
             trace := trace σ ++ [CallReadInput] |}.
Proof.
  intros Hin Htake Hbuf Hbody n.
  assert (Hread : readInput a (world σ) =
            Ret ("", Some ("failed to read request body: " +:+ err))
                (set_requestChan
                   (chan.Chan (chan.cap (requestChan (world σ))) rest) (world σ))).
  { rewrite Hin. unfold readFromNetwork.
    rewrite (bind_Ret _ _ _ _ _ (chan_recv_Ret requestChan set_requestChan _ _ _ Hbuf)).
    now rewrite Hbody. }
  simpl. now rewrite (bind_Ret _ _ _ _ _ (Run_body_read_error _ _ _ _ _ _ _ Htake Hread)).
Qed.

End Transport.

Section Conversation.

Context {Ext : Type}.
Implicit Types (a : Agent Ext) (σ : Sys Ext) (w : World Ext) (st : Loop).

(** ** The record of an iteration, however it ends *)

Lemma Run_input_stops a st σ σ1 :
  (Run_input a st σ = Block σ1 \/ exists why, Run_input a st σ = Crash why σ1) ->
  takeInput st = true /\ trace σ1 = trace σ ++ [CallReadInput].
Proof.
  unfold Run_input. destruct (takeInput st).
  - unfold bind, emit, extern. simpl.
    destruct (readInput a (world σ)) as [[input [e|]] w'|w'|why w']; simpl;
      intros [H|(why' & H)]; try discriminate; inversion H; auto.
  - intros [H|(why & H)]; discriminate.
Qed.

Lemma model_call_trace a tools_ (messages1 : list anthropic.MessageParam) σ :
  exists evs,
    trace (final
             (bind (Infer a messages1 tools_)
                (fun r => match r with
                          | inr err => ret (inr ("", err))
                          | inl response =>
                              bind (Run_respond a messages1 response)
                                   (fun st' => ret (inl st' : Loop + string * error))
                          end) σ)) =
      trace σ ++ CallMessagesNew (Infer_params messages1 tools_) :: evs
    /\ Forall respond_event evs.
Proof.
  destruct (Run_body_starts a tools_ {| takeInput := false; messages := messages1 |} σ)
    as (evs & Htr & Hall).
  exists evs. split; [exact Htr|now apply Hall].
Qed.

Lemma Run_body_trace a tools_ st σ :
  exists pre rest,
    trace (final (Run_body a tools_ st σ)) = trace σ ++ pre ++ rest
    /\ ((takeInput st = true /\ pre = [CallReadInput] /\ rest = [])
        \/ exists messages1 evs,
             arrival st pre messages1
             /\ rest = CallMessagesNew (Infer_params messages1 tools_) :: evs
             /\ Forall respond_event evs).
Proof.
  unfold Run_body.
  destruct (Run_input a st σ) as [[messages1|out] σ1|σ1|why σ1] eqn:Hin.
  - rewrite (bind_Ret _ _ _ _ _ Hin).
    destruct (model_call_trace a tools_ messages1 σ1) as (evs & Htr & Hall).
    apply Run_input_Ret in Hin
      as [(Htake & Hr & ->)|(Htake & input & err & w1 & _ & Hin)].
    + inversion Hr; subst messages1.
      exists [], (CallMessagesNew (Infer_params (messages st) tools_) :: evs).
      split; [exact Htr|]. right. exists (messages st), evs.
      split; [left; auto|auto].
    + destruct err as [e|]; destruct Hin as (Hr & ->); [discriminate|].
      inversion Hr; subst messages1.
      eexists [CallReadInput; Append _], _.
      split; [etransitivity; [exact Htr|]; simpl; rewrite <- app_assoc; reflexivity|].
      right. eexists _, evs. split; [|auto].
      right. split; [assumption|]. exists input. split; reflexivity.
  - rewrite (bind_Ret _ _ _ _ _ Hin). simpl.
    apply Run_input_Ret in Hin
      as [(_ & Hr & _)|(Htake & input & err & w1 & _ & Hin)]; [discriminate|].
    destruct err as [e|]; destruct Hin as (Hr & ->); [|discriminate].
    exists [CallReadInput], []. simpl. auto.
  - rewrite (bind_Block _ _ _ _ Hin). simpl.
    destruct (Run_input_stops a st σ σ1 (or_introl Hin)) as (Htake & Htr).
    exists [CallReadInput], []. simpl. auto.
  - rewrite (bind_Crash _ _ _ _ _ Hin). simpl.
    destruct (Run_input_stops a st σ σ1 (or_intror (ex_intro _ why Hin)))
      as (Htake & Htr).
    exists [CallReadInput], []. simpl. auto.
Qed.

(** ** What the model is shown *)

Lemma faithful_app tools_ (evs1 evs2 : list Event) :
  forall messages_,
    faithful tools_ messages_ (evs1 ++ evs2) <->
    faithful tools_ messages_ evs1
    /\ faithful tools_ (messages_ ++ appended evs1) evs2.
Proof.
  induction evs1 as [|ev evs1 IH]; intros messages_; simpl.
  - rewrite app_nil_r. tauto.
  - destruct ev; simpl; rewrite ?IH, <- ?app_assoc; simpl; tauto.
Qed.

Lemma faithful_respond tools_ (evs : list Event) :
  Forall respond_event evs -> forall messages_, faithful tools_ messages_ evs.
Proof.
  induction 1 as [|ev evs Hev _ IH]; intros messages_; simpl; [exact I|].
  destruct ev; simpl in Hev; try contradiction; auto.
Qed.

Lemma Run_body_faithful a tools_ st σ :
  exists evs,
    trace (final (Run_body a tools_ st σ)) = trace σ ++ evs
    /\ faithful tools_ (messages st) evs.
Proof.
  destruct (Run_body_trace a tools_ st σ) as (pre & rest & Htr & Hcase).
  exists (pre ++ rest). split; [exact Htr|].
  destruct Hcase as [(_ & -> & ->)|(messages1 & evs & Harr & -> & Hall)];
    [simpl; exact I|].
  destruct Harr as [(_ & -> & ->)|(_ & input & -> & ->)]; simpl;
    (split; [repeat split|now apply faithful_respond]).
Qed.

Lemma Run_loop_faithful a tools_ (n : nat) :
  forall st σ,
    exists evs,
      trace (final (Run_loop n a tools_ st σ)) = trace σ ++ evs
      /\ faithful tools_ (messages st) evs.
Proof.
  induction n as [|n IH]; intros st σ.
  - exists []. simpl. now rewrite app_nil_r.
  - destruct (Run_body_faithful a tools_ st σ) as (evs1 & Htr1 & Hf1).
    simpl.
    destruct (Run_body a tools_ st σ) as [[st1|out] σ1|σ1|why σ1] eqn:Hbody.
    + rewrite (bind_Ret _ _ _ _ _ Hbody).
      destruct (Run_body_appends _ _ _ _ _ _ Hbody) as (evs1' & Htr1' & Hm1).
      simpl in Htr1. rewrite Htr1 in Htr1'. apply app_inv_head in Htr1'. subst evs1'.
      destruct (IH st1 σ1) as (evs2 & Htr2 & Hf2).
      exists (evs1 ++ evs2). rewrite Htr2, Htr1, <- app_assoc.
      split; [reflexivity|]. apply faithful_app. split; [exact Hf1|].
      now rewrite <- Hm1.
    + rewrite (bind_Ret _ _ _ _ _ Hbody). eauto.
    + rewrite (bind_Block _ _ _ _ Hbody). eauto.
    + rewrite (bind_Crash _ _ _ _ _ Hbody). eauto.
Qed.

Lemma anthropicTools_lists_the_table a : lists_the_table (tools a) (anthropicTools a).
Proof.
  unfold lists_the_table, anthropicTools.
  induction (tools a) as [|tool table IH]; simpl; constructor; auto.
Qed.

(** X5: the model is always shown the whole transcript.  However a run of
    the loop ends, every model call in its record was made with a request
    whose messages are the transcript as it stood at that moment (the
    starting turns and all turns appended so far, none left out), whose
    tools are the one list the loop was given, with 1024 as the token
    limit, the model "claude-sonnet-4-20250514" and the one system prompt.
    For [Run] the transcript starts empty and the tool list names the
    tools of the agent's table, one entry each, in the table's order. *)
Theorem every_model_call_sees_the_whole_transcript a (n : nat) :
  (forall tools_ st σ,
      exists evs,
        trace (final (Run_loop n a tools_ st σ)) = trace σ ++ evs
        /\ faithful tools_ (messages st) evs)
  /\ (forall σ0 : Sys Ext,
        exists evs tools_,
          trace (final (Run n a σ0)) = trace σ0 ++ evs
          /\ faithful tools_ [] evs
          /\ lists_the_table (tools a) tools_).
Proof.
  split.
  - intros tools_. apply Run_loop_faithful.
  - intros σ0.
    destruct (Run_loop_faithful a (anthropicTools a) n
                {| takeInput := true; messages := [] |} σ0) as (evs & Htr & Hf).
    exists evs, (anthropicTools a).
    split; [exact Htr|]. split; [exact Hf|]. apply anthropicTools_lists_the_table.
Qed.

Lemma respond_asks_as_user (evs : list Event) :
  Forall respond_event evs -> Forall asks_as_user evs.
Proof.
  intros Hall. eapply Forall_impl; [exact Hall|].
  intros ev Hev. destruct ev; simpl in *; auto; contradiction.
Qed.

Lemma Run_body_asks_as_user a tools_ st σ :
  awaits_model st ->
  (exists evs,
      trace (final (Run_body a tools_ st σ)) = trace σ ++ evs
      /\ Forall asks_as_user evs)
  /\ (forall st' σ', Run_body a tools_ st σ = Ret (inl st') σ' -> awaits_model st').
Proof.
  intros Hst. split.
  - destruct (Run_body_trace a tools_ st σ) as (pre & rest & Htr & Hcase).
    exists (pre ++ rest). split; [exact Htr|].
    destruct Hcase as [(_ & -> & ->)|(messages1 & evs & Harr & -> & Hall)];
      [repeat constructor|].
    apply respond_asks_as_user in Hall.
    destruct Harr as [(Htake & -> & ->)|(_ & input & -> & ->)]; simpl.
    + constructor; [|exact Hall]. simpl. now apply Hst.
    + repeat (constructor; simpl; auto).
      eexists. apply last_snoc.
  - intros st' σ' Hbody.
    apply Run_body_Ret_inl in Hbody
      as (pre & messages1 & response & dispatch & toolResults & post
          & _ & _ & _ & _ & Hcase).
    destruct Hcase as [(_ & c & rest' & _ & _ & ->)|(_ & _ & ->)];
      intros Htake; simpl in *; [discriminate|].
    exists toolResults.
    change [anthropic.ToParam response; anthropic.NewUserMessage toolResults]
      with ([anthropic.ToParam response] ++ [anthropic.NewUserMessage toolResults]).
    rewrite app_assoc. apply last_snoc.
Qed.

Lemma Run_loop_asks_as_user a tools_ (n : nat) :
  forall st σ,
    awaits_model st ->
    exists evs,
      trace (final (Run_loop n a tools_ st σ)) = trace σ ++ evs
      /\ Forall asks_as_user evs.
Proof.
  induction n as [|n IH]; intros st σ Hst.
  - exists []. simpl. rewrite app_nil_r. split; [reflexivity|constructor].
  - destruct (Run_body_asks_as_user a tools_ st σ Hst) as ((evs1 & Htr1 & Hall1) & Hnext).
    simpl.
    destruct (Run_body a tools_ st σ) as [[st1|out] σ1|σ1|why σ1] eqn:Hbody.
    + rewrite (bind_Ret _ _ _ _ _ Hbody).
      destruct (IH st1 σ1 (Hnext _ _ eq_refl)) as (evs2 & Htr2 & Hall2).
      exists (evs1 ++ evs2). simpl in Htr1. rewrite Htr2, Htr1, <- app_assoc.
      split; [reflexivity|]. now apply Forall_app.
    + rewrite (bind_Ret _ _ _ _ _ Hbody). eauto.
    + rewrite (bind_Block _ _ _ _ Hbody). eauto.
    + rewrite (bind_Crash _ _ _ _ _ Hbody). eauto.
Qed.

(** X6: the model is only ever asked on a transcript that ends with a user
    turn.  However [Run] ends, each model call in its record was made
    right after the input turn or the turn of tool results was appended,
    never on a transcript ending with the model's own turn. *)
Theorem model_is_always_asked_as_user a (n : nat) (σ0 : Sys Ext) :
  exists evs,
    trace (final (Run n a σ0)) = trace σ0 ++ evs
    /\ Forall asks_as_user evs.
Proof.
  apply Run_loop_asks_as_user. intros Htake. discriminate.
Qed.

(** ** The ways out of the loop *)

Lemma Run_body_Ret_inr a tools_ st σ (out : string) (e : error) σ' :
  Run_body a tools_ st σ = Ret (inr (out, e)) σ' ->
  out = ""
  /\ ((takeInput st = true
       /\ (exists input, readInput a (world σ) = Ret (input, Some e) (world σ'))
       /\ trace σ' = trace σ ++ [CallReadInput])
      \/ (exists σ1 messages1,
            Run_input a st σ = Ret (inl messages1) σ1
            /\ client a (Infer_params messages1 tools_) (world σ1)
                 = Ret (inr e) (world σ')
            /\ trace σ' = trace σ1 ++ [CallMessagesNew (Infer_params messages1 tools_)])).
Proof.
  unfold Run_body. intros H.
  apply bind_Ret_inv in H as (r & σ1 & Hin & H).
  destruct r as [messages1|out'].
  - apply bind_Ret_inv in H as (r & σ2 & Hinf & H).
    destruct r as [response|err].
    + apply bind_Ret_inv in H as (st1 & σ3 & _ & H). discriminate.
    + inversion H; subst out e σ2; clear H.
      apply Infer_Ret in Hinf as (w' & Hcl & ->). simpl.
      split; [reflexivity|]. right. exists σ1, messages1. auto.
  - inversion H; subst out' σ1; clear H.
    apply Run_input_Ret in Hin
      as [(_ & Hr & _)|(Htake & input & err & w1 & Hread & Hin)]; [discriminate|].
    destruct err as [e'|]; destruct Hin as (Hr & ->); [|discriminate].
    inversion Hr; subst out e'. simpl.
    split; [reflexivity|]. left. eauto.
Qed.

(** X7: [Run] has two ways out and no others.  Whenever it returns, the
    string it returns is empty and the error is the one a read of input or
    a model call has just returned, that call being the last entry of the
    record: no tool result, write outcome or model answer makes it
    return. *)
Theorem Run_only_leaves_on_a_failed_read_or_model_call a tools_ (n : nat) :
  forall st σ (out : string) (e : error) σ',
    Run_loop n a tools_ st σ = Ret (inr (out, e)) σ' ->
    out = ""
    /\ ((exists σ1 input,
            readInput a (world σ1) = Ret (input, Some e) (world σ')
            /\ last (trace σ') = Some CallReadInput)
        \/ (exists σ1 params,
              client a params (world σ1) = Ret (inr e) (world σ')
              /\ last (trace σ') = Some (CallMessagesNew params))).
Proof.
  induction n as [|n IH]; intros st σ out e σ' Hloop; [discriminate|].
  simpl in Hloop. apply bind_Ret_inv in Hloop as (r & σ1 & Hbody & Hloop).
  destruct r as [st1|out1]; [now apply IH in Hloop|].
  inversion Hloop; subst out1 σ1; clear Hloop.
  apply Run_body_Ret_inr in Hbody
    as (-> & [(_ & (input & Hread) & Htr)|(σ1 & messages1 & _ & Hcl & Htr)]).
  - split; [reflexivity|]. left. exists σ, input. split; [exact Hread|].
    rewrite Htr. apply last_snoc.
  - split; [reflexivity|]. right. eexists σ1, _. split; [exact Hcl|].
    rewrite Htr. apply last_snoc.
Qed.

(** X8: the transcript is never pruned.  An iteration that goes round adds
    at least one turn and at most three (the input, the model's turn, the
    tool results), so after [n] iterations the transcript is between [n]
    and [3 n] turns longer. *)
Theorem transcript_grows_every_iteration a tools_ (n : nat) :
  forall st σ st' σ',
    Run_loop n a tools_ st σ = Ret (inl st') σ' ->
    length (messages st) + n <= length (messages st')
    /\ length (messages st') <= length (messages st) + 3 * n.
Proof.
  induction n as [|n IH]; intros st σ st' σ' Hloop.
  - inversion Hloop. lia.
  - simpl in Hloop. apply bind_Ret_inv in Hloop as (r & σ1 & Hbody & Hloop).
    destruct r as [st1|out]; [|discriminate].
    apply IH in Hloop as (Hlo & Hhi).
    apply Run_body_Ret_inl in Hbody
      as (pre & messages1 & response & dispatch & toolResults & post
          & Harr & _ & _ & _ & Hcase).
    assert (Hm1 : length (messages st) <= length messages1
                  /\ length messages1 <= length (messages st) + 1).
    { destruct Harr as [(_ & _ & ->)|(_ & input & _ & ->)];
        rewrite ?length_app; simpl; lia. }
    assert (H1 : length messages1 + 1 <= length (messages st1)
                 /\ length (messages st1) <= length messages1 + 2).
    { destruct Hcase as [(_ & c & rest & _ & _ & ->)|(_ & _ & ->)]; simpl;
        rewrite length_app; simpl; lia. }
    lia.
Qed.

End Conversation.

Section Dispatch.

Context {Ext : Type}.
Implicit Types (a : Agent Ext) (σ : Sys Ext) (w : World Ext) (st : Loop).

Lemma find_first_of_name (pre post : list (ToolDefinition Ext))
    (toolDef : ToolDefinition Ext) :
  Name toolDef ∉ map Name pre ->
  find (fun tool => String.eqb (Name tool) (Name toolDef)) (pre ++ toolDef :: post)
    = Some toolDef.
Proof.
  induction pre as [|tool pre IH]; simpl; intros Hno.
  - now rewrite String.eqb_refl.
  - destruct (String.eqb_spec (Name tool) (Name toolDef)) as [Heq|Hne].
    + exfalso. apply Hno. rewrite Heq. apply list_elem_of_here.
    + apply IH. intros Hin. apply Hno. now apply list_elem_of_further.
Qed.

(** X9: [ExecuteTool] runs the first tool of the table that bears the
    requested name, and that one only: a tool registered later under the
    same name is never called.  What the tool returns without error
    becomes the result text with the failure flag clear; with an error,
    the error's message with the flag set. *)
Theorem ExecuteTool_runs_the_first_tool_of_that_name a
    (pre post : list (ToolDefinition Ext)) (toolDef : ToolDefinition Ext)
    (toolID_ : string) (toolInput_ : RawMessage) σ
    (result : string) (err : option error) w' :
  tools a = pre ++ toolDef :: post ->
  Name toolDef ∉ map Name pre ->
  Function toolDef toolInput_ (world σ) = Ret (result, err) w' ->
  ExecuteTool a toolID_ (Name toolDef) toolInput_ σ =
    Ret (match err with
         | Some e => anthropic.OfToolResult toolID_ e true
         | None => anthropic.OfToolResult toolID_ result false
         end)
        {| world := w'; sched := sched σ;
           trace := trace σ ++ [CallExecuteTool toolID_ (Name toolDef) toolInput_;
                                CallFunction (Name toolDef) toolInput_] |}.
Proof.
  intros Htools Hfirst Hfun.
  apply (ExecuteTool_known a toolID_ (Name toolDef) toolInput_ σ toolDef result err w');
    [|exact Hfun].
  rewrite Htools. now apply find_first_of_name.
Qed.

(** ** Each request once *)

Lemma dispatched_app (evs1 evs2 : list Event) :
  dispatched (evs1 ++ evs2) = dispatched evs1 ++ dispatched evs2.
Proof. apply omap_app. Qed.

Lemma pick_Ret_trace (n : nat) σ :
  0 < n -> exists k σ', pick n σ = Ret k σ' /\ k < n /\ trace σ' = trace σ.
Proof.
  intros Hn. unfold pick. destruct (sched σ) as [|k rest].
  - exists 0, σ. auto.
  - eexists _, _. split; [reflexivity|]. split; [|reflexivity].
    apply Nat.mod_upper_bound. lia.
Qed.

(** The record of one [ExecuteTool], however it ends: its own entry, then
    at most one call of a tool function. *)
Lemma ExecuteTool_trace a (toolID_ toolName_ : string) (toolInput_ : RawMessage) σ :
  exists evs,
    trace (final (ExecuteTool a toolID_ toolName_ toolInput_ σ)) =
      trace σ ++ CallExecuteTool toolID_ toolName_ toolInput_ :: evs
    /\ dispatched evs = []
    /\ count is_function_call evs <= 1.
Proof.
  unfold ExecuteTool, bind, emit, extern, ret. simpl.
  destruct (find _ _) as [toolDef|]; simpl.
  - exists [CallFunction (Name toolDef) toolInput_].
    split; [|split; [reflexivity|simpl; lia]].
    destruct (Function toolDef toolInput_ (world σ)) as [[result [e|]] w'|w'|why w'];
      simpl; now rewrite <- app_assoc.
  - exists []. split; [reflexivity|]. split; [reflexivity|simpl; lia].
Qed.

Lemma Run_fan_in_trace a (n : nat) :
  forall (running : list Call) toolResults σ,
    exists evs,
      trace (final (Run_fan_in a n running toolResults σ)) = trace σ ++ evs
      /\ dispatched evs ⊆+ running
      /\ count is_function_call evs <= length (dispatched evs)
      /\ (forall res σ',
            Run_fan_in a n running toolResults σ = Ret res σ' ->
            length running = n ->
            dispatched evs ≡ₚ running).
Proof.
  induction n as [|n IH]; intros running toolResults σ.
  - exists []. simpl. rewrite app_nil_r.
    split; [reflexivity|]. split; [apply submseteq_nil_l|]. split; [lia|].
    intros res σ' _ Hlen. now destruct running.
  - destruct running as [|g0 running0].
    { exists []. simpl. rewrite app_nil_r.
      split; [reflexivity|]. split; [apply submseteq_nil_l|]. split; [lia|].
      intros res σ' H. discriminate. }
    set (running := g0 :: running0) in *.
    destruct (pick_Ret_trace (length running) σ) as (k & σ1 & Hpick & Hk & Htr1);
      [simpl; lia|].
    destruct (lookup_lt_is_Some_2 running k Hk) as [g Hg].
    pose proof (delete_Permutation running k g Hg) as Hperm.
    destruct (ExecuteTool_trace a (toolID g) (toolName g) (toolInput g) σ1)
      as (evs1 & Htre & Hd1 & Hc1).
    assert (Hstep : Run_fan_in a (S n) running toolResults σ =
              bind (ExecuteTool a (toolID g) (toolName g) (toolInput g))
                (fun toolResult =>
                   Run_fan_in a n (delete k running) (toolResults ++ [toolResult])) σ1).
    { change (Run_fan_in a (S n) running toolResults σ) with
        (bind (pick (length running))
           (fun k => match running !! k with
                     | None => park
                     | Some g =>
                         bind (ExecuteTool a (toolID g) (toolName g) (toolInput g))
                           (fun toolResult =>
                              Run_fan_in a n (delete k running)
                                (toolResults ++ [toolResult]))
                     end) σ).
      now rewrite (bind_Ret _ _ _ _ _ Hpick), Hg. }
    rewrite Hstep.
    assert (Hg1 : {| toolID := toolID g; toolName := toolName g;
                     toolInput := toolInput g |} = g) by now destruct g.
    destruct (ExecuteTool a (toolID g) (toolName g) (toolInput g) σ1)
      as [r σ2|σ2|why σ2] eqn:Hexec; simpl in Htre.
    + rewrite (bind_Ret _ _ _ _ _ Hexec).
      destruct (IH (delete k running) (toolResults ++ [r]) σ2)
        as (evs2 & Htr2 & Hsub & Hc2 & Hall).
      exists (CallExecuteTool (toolID g) (toolName g) (toolInput g) :: evs1 ++ evs2).
      rewrite Htr2, Htre, Htr1, <- app_assoc. simpl.
      rewrite dispatched_app, Hd1, count_app, Hg1. simpl.
      split; [reflexivity|]. split; [|split; [lia|]].
      * rewrite Hperm. now apply submseteq_skip.
      * intros res σ' Hret Hlen. rewrite Hperm. apply Permutation_skip.
        apply (Hall res σ' Hret). rewrite length_delete by eauto.
        unfold running. simpl in *. lia.
    + rewrite (bind_Block _ _ _ _ Hexec).
      exists (CallExecuteTool (toolID g) (toolName g) (toolInput g) :: evs1).
      simpl. rewrite Htre, Htr1, Hd1, Hg1. simpl.
      split; [reflexivity|]. split; [|split; [lia|discriminate]].
      rewrite Hperm. apply submseteq_skip, submseteq_nil_l.
    + rewrite (bind_Crash _ _ _ _ _ Hexec).
      exists (CallExecuteTool (toolID g) (toolName g) (toolInput g) :: evs1).
      simpl. rewrite Htre, Htr1, Hd1, Hg1. simpl.
      split; [reflexivity|]. split; [|split; [lia|discriminate]].
      rewrite Hperm. apply submseteq_skip, submseteq_nil_l.
Qed.

(** X10: no tool request is run twice.  However the handling of a
    response ends (a tool may hang or panic), [ExecuteTool] has been run
    on a part of the response's requests, each at most as often as it
    occurs there, with at most one call of a tool function each; when the
    loop goes round it has been run on every request exactly once. *)
Theorem every_request_is_run_once a messages_ (response : anthropic.Message) σ :
  exists evs,
    trace (final (Run_respond a messages_ response σ)) = trace σ ++ evs
    /\ dispatched evs ⊆+ tool_requests response
    /\ count is_function_call evs <= length (dispatched evs)
    /\ (forall st' σ',
          Run_respond a messages_ response σ = Ret st' σ' ->
          dispatched evs ≡ₚ tool_requests response).
Proof.
  set (σ1 := {| world := world σ; sched := sched σ;
                trace := trace σ ++ [Append (anthropic.ToParam response)] |}).
  set (k := fun toolResults : list anthropic.ContentBlockParamUnion =>
              if Nat.eqb (length toolResults) 0 then
                match anthropic.Content response with
                | [] => panic "index out of range [0] with length 0"
                | c :: _ =>
                    emit (CallWriteOutput (anthropic.Text c));;
                    let* _ := extern (writeOutput a (anthropic.Text c)) in
                    ret {| takeInput := true;
                           messages := messages_ ++ [anthropic.ToParam response] |}
                end
              else
                let* messages_1 :=
                  append_turn (messages_ ++ [anthropic.ToParam response])
                    (anthropic.NewUserMessage toolResults) in
                ret {| takeInput := false; messages := messages_1 |}).
  assert (Hrun : Run_respond a messages_ response σ =
            bind (Run_fan_in a (length (tool_requests response))
                    (tool_requests response) []) k σ1).
  { unfold Run_respond. rewrite Run_fan_out_requests. reflexivity. }
  rewrite Hrun. clear Hrun.
  destruct (Run_fan_in_trace a (length (tool_requests response))
              (tool_requests response) [] σ1)
    as (evs & Htr & Hsub & Hc & Hall).
  destruct (Run_fan_in a _ _ [] σ1) as [toolResults σ2|σ2|why σ2] eqn:Hin;
    simpl in Htr.
  - specialize (Hall _ _ eq_refl eq_refl).
    rewrite (bind_Ret _ _ _ _ _ Hin). unfold k.
    destruct (Nat.eqb (length toolResults) 0).
    + destruct (anthropic.Content response) as [|c rest].
      * exists (Append (anthropic.ToParam response) :: evs). simpl.
        rewrite Htr. simpl. rewrite <- app_assoc. auto.
      * exists (Append (anthropic.ToParam response) :: evs
                  ++ [CallWriteOutput (anthropic.Text c)]).
        simpl. rewrite dispatched_app, count_app. simpl. rewrite !app_nil_r.
        split; [|split; [assumption|split; [lia|auto]]].
        unfold bind, emit, extern. simpl.
        destruct (writeOutput a (anthropic.Text c) (world σ2)); simpl;
          rewrite Htr; simpl; now rewrite <- !app_assoc.
    + exists (Append (anthropic.ToParam response) :: evs
                ++ [Append (anthropic.NewUserMessage toolResults)]).
      simpl. rewrite dispatched_app, count_app. simpl. rewrite !app_nil_r.
      split; [|split; [assumption|split; [lia|auto]]].
      unfold append_turn, bind, emit, ret. simpl.
      rewrite Htr. simpl. now rewrite <- !app_assoc.
  - rewrite (bind_Block _ _ _ _ Hin).
    exists (Append (anthropic.ToParam response) :: evs). simpl.
    rewrite Htr. simpl. rewrite <- app_assoc.
    split; [reflexivity|]. split; [assumption|]. split; [assumption|discriminate].
  - rewrite (bind_Crash _ _ _ _ _ Hin).
    exists (Append (anthropic.ToParam response) :: evs). simpl.
    rewrite Htr. simpl. rewrite <- app_assoc.
    split; [reflexivity|]. split; [assumption|]. split; [assumption|discriminate].
Qed.

(** ** Start *)

Lemma find_no_conflict (conflicts : string -> string -> bool) (pattern : string)
    (mux : ServeMux Ext) :
  Forall (fun entry => conflicts entry.1 pattern = false) mux ->
  find (fun entry => conflicts entry.1 pattern) mux = None.
Proof.
  induction 1 as [|entry mux Hentry _ IH]; simpl; [reflexivity|].
  now rewrite Hentry.
Qed.

Lemma find_first_conflict (conflicts : string -> string -> bool) (pattern : string)
    (mux rest : ServeMux Ext) (entry : string * Handler Ext) :
  Forall (fun entry => conflicts entry.1 pattern = false) mux ->
  conflicts entry.1 pattern = true ->
  find (fun entry => conflicts entry.1 pattern) (mux ++ entry :: rest) = Some entry.
Proof.
  intros Hmux Hentry.
  induction Hmux as [|entry' mux Hentry' _ IH]; simpl.
  - now rewrite Hentry.
  - now rewrite Hentry'.
Qed.

Lemma HandleFunc_registers (parses : string -> bool)
    (conflicts : string -> string -> bool) (pattern : string)
    (handler : Handler Ext) (mux : ServeMux Ext) :
  parses pattern = true ->
  Forall (fun entry => conflicts entry.1 pattern = false) mux ->
  HandleFunc parses conflicts pattern handler mux = Ret tt (mux ++ [(pattern, handler)]).
Proof.
  intros Hparses Hmux. unfold HandleFunc.
  now rewrite Hparses, (find_no_conflict _ _ _ Hmux).
Qed.

Lemma HandleFunc_clashes (parses : string -> bool)
    (conflicts : string -> string -> bool) (pattern : string)
    (handler : Handler Ext) (mux rest : ServeMux Ext) (entry : string * Handler Ext) :
  parses pattern = true ->
  Forall (fun entry => conflicts entry.1 pattern = false) mux ->
  conflicts entry.1 pattern = true ->
  HandleFunc parses conflicts pattern handler (mux ++ entry :: rest) =
    Crash (conflicting_patterns pattern entry.1) (mux ++ entry :: rest).
Proof.
  intros Hparses Hmux Hentry. unfold HandleFunc.
  now rewrite Hparses, (find_first_conflict _ _ _ _ _ Hmux Hentry).
Qed.

(** X11: [Start] once, and [Start] again.  Whatever the release of
    net/http, as long as it takes a pattern to clash with itself: when it
    cannot parse the agent's route "/<name>", [Start] panics with nothing
    registered.  When it can parse the route and "/health", and neither
    clashes with a pattern registered before or with the other, [Start]
    returns nil with exactly these two registered, after those that were
    there.  From then on a second [Start] of the same agent panics on its
    own route, with nothing added, and the [Start] of another agent whose
    route is free registers that route and then panics on "/health".  An
    agent named "health" registers its route and panics on "/health" in
    its first [Start]. *)
Theorem Start_once_only (parses : string -> bool) (conflicts : string -> string -> bool)
    (a b : Agent Ext) (mux : ServeMux Ext) :
  let free (pattern : string) (mux : ServeMux Ext) :=
    Forall (fun entry => conflicts entry.1 pattern = false) mux in
  let own := "/" +:+ name a in
  (forall pattern, parses pattern = true -> conflicts pattern pattern = true) ->
  (parses own = false ->
     Start parses conflicts a mux = Crash (invalid_pattern own) mux)
  /\ (parses own = true -> free own mux ->
      parses "/health" = true -> free "/health" mux ->
      conflicts own "/health" = false ->
      let mux' := mux ++ [(own, HandleRequest a); ("/health", Health a)] in
      Start parses conflicts a mux = Ret None mux'
      /\ Start parses conflicts a mux' = Crash (conflicting_patterns own own) mux'
      /\ (parses ("/" +:+ name b) = true -> free ("/" +:+ name b) mux' ->
          Start parses conflicts b mux' =
            Crash (conflicting_patterns "/health" "/health")
                  (mux' ++ [("/" +:+ name b, HandleRequest b)])))
  /\ (name a = "health" ->
      parses "/health" = true -> free "/health" mux ->
      Start parses conflicts a mux =
        Crash (conflicting_patterns "/health" "/health")
              (mux ++ [("/health", HandleRequest a)])).
Proof.
  intros free own Hrefl. split; [|split].
  - intros Hown. unfold Start, bind, HandleFunc. fold own. now rewrite Hown.
  - intros Hown Hfree Hhealth Hfreeh Hapart mux'.
    assert (Hfirst : HandleFunc parses conflicts own (HandleRequest a) mux =
                       Ret tt (mux ++ [(own, HandleRequest a)]))
      by now apply HandleFunc_registers.
    assert (Hsecond : HandleFunc parses conflicts "/health" (Health a)
                        (mux ++ [(own, HandleRequest a)]) = Ret tt mux').
    { rewrite HandleFunc_registers; [unfold mux'; now rewrite <- app_assoc|assumption|].
      apply Forall_app. split; [assumption|]. now repeat constructor. }
    split; [|split].
    + unfold Start. fold own.
      rewrite (bind_Ret _ _ _ _ _ Hfirst), (bind_Ret _ _ _ _ _ Hsecond). reflexivity.
    + unfold Start. fold own. apply bind_Crash.
      apply (HandleFunc_clashes parses conflicts own (HandleRequest a) mux
               [("/health", Health a)] (own, HandleRequest a)); auto.
    + intros Hb Hfreeb. unfold Start.
      rewrite (bind_Ret _ _ _ _ _
                 (HandleFunc_registers parses conflicts _ (HandleRequest b) mux' Hb Hfreeb)).
      apply bind_Crash. unfold mux'.
      replace ((mux ++ [(own, HandleRequest a); ("/health", Health a)])
                 ++ [("/" +:+ name b, HandleRequest b)])
        with ((mux ++ [(own, HandleRequest a)])
                ++ ("/health", Health a) :: [("/" +:+ name b, HandleRequest b)])
        by (rewrite <- !app_assoc; reflexivity).
      apply (HandleFunc_clashes parses conflicts "/health" (Health b)); auto.
      apply Forall_app. split; [assumption|]. now repeat constructor.
  - intros Hname Hhealth Hfreeh. unfold Start. subst own. rewrite Hname.
    change ("/" +:+ "health") with "/health".
    rewrite (bind_Ret _ _ _ _ _
               (HandleFunc_registers parses conflicts "/health" (HandleRequest a) mux
                  Hhealth Hfreeh)).
    apply bind_Crash.
    apply (HandleFunc_clashes parses conflicts "/health" (Health a) mux []
             ("/health", HandleRequest a)); auto.
Qed.

End Dispatch.

Section Listing.

Local Open Scope Z_scope.

(** ** formatPermissions *)

Lemma land_pow2 (m i : Z) :
  0 <= i -> Z.land m (2 ^ i) = if Z.testbit m i then 2 ^ i else 0.
Proof.
  intros Hi. apply Z.bits_inj'. intros n Hn.
  rewrite Z.land_spec, Z.pow2_bits_eqb by exact Hi.
  destruct (Z.eqb_spec i n) as [->|Hne].
  - rewrite andb_true_r. destruct (Z.testbit m n) eqn:Hbit.
    + now rewrite Z.pow2_bits_true.
    + now rewrite Z.bits_0.
  - rewrite andb_false_r. destruct (Z.testbit m i).
    + now rewrite Z.pow2_bits_false.
    + now rewrite Z.bits_0.
Qed.

Lemma perm_rune_testbit (m i : Z) (c : Ascii.ascii) :
  0 <= i -> perm_rune m (2 ^ i) c = if Z.testbit m i then c else "-"%char.
Proof.
  intros Hi. unfold perm_rune. rewrite land_pow2 by exact Hi.
  destruct (Z.testbit m i); [|reflexivity].
  destruct (Z.eqb_spec (2 ^ i) 0) as [Hzero|]; [|reflexivity].
  pose proof (Z.pow_pos_nonneg 2 i). lia.
Qed.

Lemma perm_rune_inj (m1 m2 i : Z) (c : Ascii.ascii) :
  0 <= i -> c <> "-"%char ->
  perm_rune m1 (2 ^ i) c = perm_rune m2 (2 ^ i) c ->
  Z.testbit m1 i = Z.testbit m2 i.
Proof.
  intros Hi Hc. rewrite !perm_rune_testbit by exact Hi.
  destruct (Z.testbit m1 i), (Z.testbit m2 i); congruence.
Qed.

Lemma perm_rune_low (m mask : Z) (c : Ascii.ascii) :
  Z.land 511 mask = mask -> perm_rune m mask c = perm_rune (Z.land m 511) mask c.
Proof. intros Hmask. unfold perm_rune. now rewrite <- Z.land_assoc, Hmask. Qed.

(** X13: what a permission string shows of a mode.  Two modes are
    printed alike exactly when they are of the same kind (directory, else
    symbolic link, else anything) and agree on the nine permission bits:
    setuid, setgid, sticky and every other type bit never show. *)
Theorem formatPermissions_shows_kind_and_nine_bits (m1 m2 : Z) :
  formatPermissions m1 = formatPermissions m2 <->
  file_kind m1 = file_kind m2 /\ Z.land m1 511 = Z.land m2 511.
Proof.
  split.
  - intros Heq. unfold formatPermissions in Heq. fold (file_kind m1) in Heq.
    fold (file_kind m2) in Heq.
    injection Heq as Hk H8 H7 H6 H5 H4 H3 H2 H1 H0.
    split; [exact Hk|].
    apply (perm_rune_inj m1 m2 8) in H8; [|lia|discriminate].
    apply (perm_rune_inj m1 m2 7) in H7; [|lia|discriminate].
    apply (perm_rune_inj m1 m2 6) in H6; [|lia|discriminate].
    apply (perm_rune_inj m1 m2 5) in H5; [|lia|discriminate].
    apply (perm_rune_inj m1 m2 4) in H4; [|lia|discriminate].
    apply (perm_rune_inj m1 m2 3) in H3; [|lia|discriminate].
    apply (perm_rune_inj m1 m2 2) in H2; [|lia|discriminate].
    apply (perm_rune_inj m1 m2 1) in H1; [|lia|discriminate].
    apply (perm_rune_inj m1 m2 0) in H0; [|lia|discriminate].
    apply Z.bits_inj'. intros n Hn. rewrite !Z.land_spec.
    change 511 with (Z.ones 9). rewrite Z.testbit_ones_nonneg by lia.
    destruct (Z.ltb_spec n 9) as [Hlow|Hhigh]; [|now rewrite !andb_false_r].
    rewrite !andb_true_r.
    assert (Hcases : n = 0 \/ n = 1 \/ n = 2 \/ n = 3 \/ n = 4 \/ n = 5
                     \/ n = 6 \/ n = 7 \/ n = 8) by lia.
    destruct Hcases as [->|[->|[->|[->|[->|[->|[->|[->| ->]]]]]]]]; assumption.
  - intros [Hk Hlow].
    unfold formatPermissions. fold (file_kind m1). fold (file_kind m2).
    rewrite !(perm_rune_low m1), !(perm_rune_low m2) by reflexivity.
    now rewrite Hk, Hlow.
Qed.

(** ** formatSize *)

(** The loop keeps [div] a power of 1024 and stops at the one that brings
    [n] below 1024, as long as [div] does not wrap round. *)
Lemma formatSize_loop_spec (fuel : nat) :
  forall n div exp : Z,
    1 <= n -> n < 1024 ^ Z.of_nat fuel -> 0 < div -> div * n < 2 ^ 63 ->
    exists k : Z,
      0 <= k
      /\ formatSize_loop fuel n div exp = (div * 1024 ^ k, exp + k)
      /\ 1024 ^ k <= n < 1024 ^ (k + 1).
Proof.
  induction fuel as [|fuel IH]; intros n div exp Hn Hfuel Hdiv Hwrap.
  - simpl in Hfuel. lia.
  - cbn [formatSize_loop]. destruct (Z.leb_spec 1024 n) as [Hge|Hlt].
    + rewrite Z.quot_div_nonneg by lia.
      assert (Hq : 1 <= n / 1024) by (apply Z.div_le_lower_bound; lia).
      assert (Hlo : 1024 * (n / 1024) <= n) by (apply Z.mul_div_le; lia).
      assert (Hhi : n < 1024 * (n / 1024 + 1)).
      { pose proof (Z.mod_pos_bound n 1024). pose proof (Z.div_mod n 1024). lia. }
      assert (Hint : int64 (div * 1024) = div * 1024).
      { unfold int64. change (2 ^ 63) with 9223372036854775808 in *.
        change (2 ^ 64) with 18446744073709551616.
        rewrite Z.mod_small; nia. }
      rewrite Hint.
      destruct (IH (n / 1024) (div * 1024) (exp + 1)) as (k & Hk & Hloop & Hklo & Hkhi).
      * exact Hq.
      * rewrite Nat2Z.inj_succ, Z.pow_succ_r in Hfuel by lia.
        apply Z.div_lt_upper_bound; lia.
      * lia.
      * nia.
      * exists (k + 1). split; [lia|]. rewrite Hloop.
        rewrite !Z.pow_add_r by lia. rewrite Z.pow_add_r in Hkhi by lia.
        change (1024 ^ 1) with 1024 in *.
        split; [f_equal; ring|]. nia.
    + exists 0. split; [lia|]. split.
      * f_equal; [change (1024 ^ 0) with 1|]; lia.
      * change (1024 ^ 0) with 1. change (1024 ^ (0 + 1)) with 1024. lia.
Qed.

(** X12: the size column of a listing.  For every size an [int64] can
    hold from 1024 on, [formatSize] does not panic on the index into
    "KMGTPE" and [div] never wraps round: the divisor is the largest power
    of 1024 that is at most the size, and the letter is the one of that
    power. *)
Theorem formatSize_picks_the_unit (Sprintf_1f : Z -> Z -> string) (size : Z) :
  1024 <= size < 2 ^ 63 ->
  exists (exp : Z) (c : Ascii.ascii),
    0 <= exp <= 5
    /\ String.get (Z.to_nat exp) "KMGTPE" = Some c
    /\ 1024 ^ (exp + 1) <= size < 1024 ^ (exp + 2)
    /\ formatSize Sprintf_1f size =
         Some (Sprintf_1f size (1024 ^ (exp + 1)) +:+ String c "").
Proof.
  intros [Hlo Hhi]. change (2 ^ 63) with 9223372036854775808 in Hhi.
  unfold formatSize. destruct (Z.ltb_spec size 1024) as [|_]; [lia|].
  rewrite Z.quot_div_nonneg by lia.
  assert (Hq : 1 <= size / 1024) by (apply Z.div_le_lower_bound; lia).
  assert (Hmul : 1024 * (size / 1024) <= size) by (apply Z.mul_div_le; lia).
  assert (Hup : size < 1024 * (size / 1024 + 1)).
  { pose proof (Z.mod_pos_bound size 1024). pose proof (Z.div_mod size 1024). lia. }
  destruct (formatSize_loop_spec 64 (size / 1024) 1024 0) as (k & Hk & Hloop & Hklo & Hkhi).
  - exact Hq.
  - apply Z.div_lt_upper_bound; [lia|].
    eapply Z.lt_le_trans; [exact Hhi|]. now vm_compute.
  - lia.
  - change (2 ^ 63) with 9223372036854775808. lia.
  - rewrite Hloop, Z.add_0_l.
    assert (Hk5 : k <= 5).
    { destruct (Z.le_gt_cases k 5) as [|Hbig]; [assumption|].
      assert (Hpow : 1024 ^ 6 <= 1024 ^ k) by (apply Z.pow_le_mono_r; lia).
      change (1024 ^ 6) with 1152921504606846976 in Hpow. lia. }
    assert (Hcases : k = 0 \/ k = 1 \/ k = 2 \/ k = 3 \/ k = 4 \/ k = 5) by lia.
    replace (1024 * 1024 ^ k) with (1024 ^ (k + 1))
      by (rewrite Z.pow_add_r by lia; change (1024 ^ 1) with 1024; ring).
    exists k.
    destruct Hcases as [->|[->|[->|[->|[->| ->]]]]];
      (eexists; split; [lia|]; split; [reflexivity|]; split; [|reflexivity]);
      cbn in Hklo, Hkhi |- *; lia.
Qed.

End Listing.

(** * The further properties at work on the scripted environment *)

Section Cases_at_work.

Import Scenario Cases.

(** A POST on connection 7, served from start to finish. *)
Lemma handshake_cycle_witness :
  exists w1 w2 w3 w4,
    handleRequest 7 (post "what is here?") (accepted None (env [] [])) = Block w1
    /\ readFromNetwork w1 = Ret ("what is here?", None) w2
    /\ writeToNetwork "It is a Go module." w2 = Ret None w3
    /\ chan_recv doneChan set_doneChan w3 = Ret true w4
    /\ (http.Written <$> conns w4 !! 7) = Some "It is a Go module.".
Proof.
  destruct (handshake_cycle (accepted None (env [] [])) 7 (post "what is here?")
              "what is here?" "It is a Go module." (http.fresh None)
              eq_refl eq_refl eq_refl (le_n 1) eq_refl (le_n 1) eq_refl (le_n 1) eq_refl)
    as (w1 & w2 & w3 & Hhandle & Hread & Hwrite & Hdone).
  exists w1, w2, w3. eexists. split; [exact Hhandle|]. split; [exact Hread|].
  split; [exact Hwrite|]. split; [exact Hdone|reflexivity].
Defined.

(** A GET on connection 7. *)
Lemma non_POST_is_turned_away_witness :
  exists w' resp',
    handleRequest 7 get (accepted None (env [] [])) = Ret tt w'
    /\ conns w' !! 7 = Some resp'
    /\ http.Status resp' = Some http.StatusMethodNotAllowed.
Proof.
  assert (Hget : http.Method get <> "POST") by discriminate.
  destruct (non_POST_is_turned_away (accepted None (env [] [])) 7 get None Hget eq_refl)
    as (w' & resp' & Hhandle & _ & _ & _ & Hconn & Hstatus & _).
  exists w', resp'. split; [exact Hhandle|]. split; [exact Hconn|exact Hstatus].
Defined.

(** Connection 8 posts while the loop is still working on the request of
    connection 7, whose writer is in the response slot: the reply goes to
    7.  Had the writer of 7 not been sent yet, the reply would go to 8. *)
Lemma late_handler_cases_witness :
  let w := final (readFromNetwork
                    (final (handleRequest 7 (post "first") (two_accepted (env [] []))))) in
  let early := final (readFromNetwork
                        (final (handleRequest_offer (post "first")
                                  (two_accepted (env [] []))))) in
  (exists w1 err w',
     handleRequest 8 (post "second") w = Block w1
     /\ writeToNetwork "reply" w1 = Ret err w'
     /\ conns w' !! 8 = Some (http.fresh None)
     /\ chan.buf (requestChan w') = [post "second"])
  /\ (exists w1 w',
        handleRequest 8 (post "second") early = Block w1
        /\ writeToNetwork "reply" w1 = Ret None w'
        /\ (http.Written <$> conns w' !! 8) = Some "reply"
        /\ conns w' !! 7 = Some (http.fresh None)).
Proof.
  intros w early.
  assert (Hne : 7 <> 8) by discriminate.
  split.
  - destruct (late_handler_cases w 7 8 (post "second") eq_refl) as (_ & Hfree & _).
    destruct (Hfree eq_refl (le_n 1) eq_refl eq_refl) as (Hblock & Hreply).
    destruct (Hreply "reply" (http.fresh None) Hne eq_refl (le_n 1))
      as (err & w' & Hwrite & Hconn & _ & Hreq).
    eexists _, err, w'. split; [exact Hblock|]. split; [exact Hwrite|].
    split; [exact (eq_trans Hconn eq_refl)|exact Hreq].
  - destruct (late_handler_cases early 7 8 (post "second") eq_refl) as (_ & _ & Hidle).
    destruct (Hidle eq_refl (le_n 1) eq_refl (le_n 1) eq_refl (le_n 1))
      as (Hblock & Hreply).
    destruct (Hreply "reply" (http.fresh None) eq_refl)
      as (w' & Hwrite & Hconn & Hother & _).
    eexists _, w'. split; [exact Hblock|]. split; [exact Hwrite|].
    split; [exact (eq_trans (f_equal (fmap http.Written) Hconn) eq_refl)|].
    exact (eq_trans (Hother Hne) eq_refl).
Defined.

(** A POST whose body breaks off. *)
Lemma unreadable_body_strands_the_caller_witness :
  let σ := {| world := final (handleRequest 7 torn (accepted None (env [] [])));
              sched := []; trace := [] |} in
  exists σ',
    Run_loop 3 coder (anthropicTools coder) init σ =
      Ret (inr ("", "failed to read request body: unexpected EOF")) σ'
    /\ chan.buf (doneChan (world σ')) = []
    /\ chan.buf (responseChan (world σ')) = [7].
Proof.
  intros σ. eexists. split.
  - exact (unreadable_body_strands_the_caller coder (anthropicTools coder) init σ torn []
             "" "unexpected EOF" eq_refl eq_refl eq_refl eq_refl 2).
  - split; reflexivity.
Defined.

(** The session: the model calls of its two iterations carry the
    transcript of the moment and the three tools of the table. *)
Lemma every_model_call_sees_the_whole_transcript_witness :
  exists evs tools_,
    trace (final (Run 2 cli session)) = trace session ++ evs
    /\ faithful tools_ [] evs
    /\ map (fun entry => match entry with
                         | anthropic.OfTool tool => anthropic.ToolName tool
                         end) tools_
         = ["read_file"; "write_file"; "list_files"].
Proof.
  destruct (proj2 (every_model_call_sees_the_whole_transcript cli 2) session)
    as (evs & tools_ & Htr & Hf & Htools).
  exists evs, tools_. split; [exact Htr|]. split; [exact Hf|].
  unfold lists_the_table in Htools.
  repeat match goal with
         | H : Forall2 _ _ _ |- _ => inversion H; subst; clear H
         | H : List.Forall2 _ _ _ |- _ => inversion H; subst; clear H
         end.
  reflexivity.
Defined.

(** An overloaded model service. *)
Lemma Run_only_leaves_on_a_failed_read_or_model_call_witness :
  let σ0 := boot (env [("hi", None)] [inr "529 overloaded"]) [] in
  let σ' := final (Run_loop 3 cli (anthropicTools cli) init σ0) in
  (exists σ1 input,
      readInput cli (world σ1) = Ret (input, Some "529 overloaded") (world σ')
      /\ last (trace σ') = Some CallReadInput)
  \/ (exists σ1 params,
        client cli params (world σ1) = Ret (inr "529 overloaded") (world σ')
        /\ last (trace σ') = Some (CallMessagesNew params)).
Proof.
  intros σ0 σ'.
  exact (proj2 (Run_only_leaves_on_a_failed_read_or_model_call cli (anthropicTools cli) 3
                  init σ0 "" "529 overloaded" σ' eq_refl)).
Defined.

(** The session: four turns after two iterations. *)
Lemma transcript_grows_every_iteration_witness :
  exists st' σ',
    Run_loop 2 cli (anthropicTools cli) init session = Ret (inl st') σ'
    /\ 2 <= length (messages st') /\ length (messages st') <= 6.
Proof.
  assert (Hrun : exists st' σ',
             Run_loop 2 cli (anthropicTools cli) init session = Ret (inl st') σ')
    by (vm_compute; eauto).
  destruct Hrun as (st' & σ' & Hrun).
  exists st', σ'. split; [exact Hrun|].
  exact (transcript_grows_every_iteration cli (anthropicTools cli) 2 _ _ _ _ Hrun).
Defined.

(** "read_file" registered twice: the first one reads, the second would
    have written. *)
Lemma ExecuteTool_runs_the_first_tool_of_that_name_witness :
  ExecuteTool shadowing "toolu_1" "read_file" "go.mod" session =
    Ret (anthropic.OfToolResult "toolu_1" "module agent" false)
        {| world := world session; sched := sched session;
           trace := [CallExecuteTool "toolu_1" "read_file" "go.mod";
                     CallFunction "read_file" "go.mod"] |}.
Proof.
  pose (first := {| Name := "list_files"; Description := "first"; InputSchema := "path";
                    Function := ListFiles |} : ToolDefinition Env).
  pose (second := {| Name := "read_file"; Description := "first"; InputSchema := "path";
                     Function := ReadFile |} : ToolDefinition Env).
  pose (third := {| Name := "read_file"; Description := "second"; InputSchema := "path";
                    Function := WriteFile |} : ToolDefinition Env).
  assert (Hfirst : Name second ∉ map Name [first]).
  { apply (bool_decide_unpack _). vm_compute. exact I. }
  exact (ExecuteTool_runs_the_first_tool_of_that_name shadowing [first] [third] second
           "toolu_1" "go.mod" session "module agent" None (world session)
           eq_refl Hfirst eq_refl).
Defined.

(** The coder agent and the documentation agent in one process, with a
    net/http that refuses the empty pattern and takes equal patterns to
    clash: the second [Start] panics on "/health", with "/doc" registered. *)
Lemma Start_once_only_witness :
  let parses (pattern : string) := negb (String.eqb pattern "") in
  Start parses String.eqb coder [] =
    Ret None [("/coder", HandleRequest coder); ("/health", Health coder)]
  /\ Start parses String.eqb doc
       [("/coder", HandleRequest coder); ("/health", Health coder)] =
       Crash (conflicting_patterns "/health" "/health")
         [("/coder", HandleRequest coder); ("/health", Health coder);
          ("/doc", HandleRequest doc)].
Proof.
  intros parses.
  assert (Hrefl : forall pattern : string,
             parses pattern = true -> String.eqb pattern pattern = true)
    by (intros pattern _; apply String.eqb_refl).
  destruct (Start_once_only parses String.eqb coder doc [] Hrefl) as (_ & Hstart & _).
  destruct (Hstart eq_refl (List.Forall_nil _) eq_refl (List.Forall_nil _) eq_refl)
    as (Hfirst & _ & Hother).
  split; [exact Hfirst|].
  apply Hother; [reflexivity|].
  repeat (apply List.Forall_cons; [reflexivity|]). apply List.Forall_nil.
Defined.

(** A file of 1536 bytes is listed as 1.5K. *)
Lemma formatSize_picks_the_unit_witness :
  exists (exp : Z) (c : Ascii.ascii),
    (0 <= exp <= 5)%Z
    /\ String.get (Z.to_nat exp) "KMGTPE" = Some c
    /\ (1024 ^ (exp + 1) <= 1536 < 1024 ^ (exp + 2))%Z
    /\ formatSize one_decimal 1536 =
         Some (one_decimal 1536 (1024 ^ (exp + 1)) +:+ String c "").
Proof.
  apply (formatSize_picks_the_unit one_decimal 1536).
  split; [discriminate|reflexivity].
Defined.

End Cases_at_work.
